(** * 0DSimDemo: the circulation model, its RK4 stepper and the frame scheduler

    A shallow embedding of [services/physics.ts] and of the physics loop of
    [App.tsx].

    Numbers.  A TypeScript [number] is modelled as a real number: [+ - * /],
    [Math.sqrt], [Math.exp], [Math.cos] and [Math.PI] are the operations of
    the Standard Library's [R].  This is exact arithmetic; rounding, infinities
    and NaN are outside the model.  Where IEEE arithmetic would produce NaN or
    an infinity (a division by zero, the square root of a negative number, an
    array read out of range) the model has the total functions of [R] instead,
    and the comment at the definition says so. *)

From Stdlib Require Import Reals Lra Lia Psatz ZArith List.
From stdpp Require Import base gmap strings list.
Import ListNotations.

Local Open Scope R_scope.

(** ** JavaScript operators on numbers *)

Module Js.

(** Comparisons as booleans. *)
Definition ltb (x y : R) : bool := if Rlt_dec x y then true else false.
Definition geb (x y : R) : bool := if Rge_dec x y then true else false.
Definition gtb (x y : R) : bool := if Rgt_dec x y then true else false.
(** [x === y] on numbers. *)
Definition eqb (x y : R) : bool := if Req_dec_T x y then true else false.

(** Truncation towards zero. *)
Definition trunc (x : R) : Z := if Rle_dec 0 x then Zfloor x else Zceil x.

(** [a % b]: the remainder of the truncated division, which carries the sign
    of the dividend [a].  ([b = 0] gives NaN in JavaScript; here it gives
    [a].) *)
Definition rem (a b : R) : R := a - b * IZR (trunc (a / b)).

(** [Math.floor], as an integer. *)
Definition floor (x : R) : Z := Zfloor x.

(** [Math.max], [Math.min], [Math.abs]. *)
Definition max (x y : R) : R := Rmax x y.
Definition min (x y : R) : R := Rmin x y.
Definition abs (x : R) : R := Rabs x.

(** [a[i]] for an array of numbers.  (Out of range is [undefined] in
    JavaScript and NaN once used in arithmetic; here it is [0].) *)
Definition get (a : list R) (i : nat) : R := nth i a 0.

(** [a[0] = v]: element 0 is overwritten, and created when the array is
    empty. *)
Definition set0 (a : list R) (v : R) : list R :=
  match a with
  | [] => [v]
  | _ :: rest => v :: rest
  end.

End Js.

(** ** types.ts *)

Record SimulationParams := {
  (* Resistances *)
  Ras : R; Rcs : R; Rvs : R; Ras_prox : R;
  Rcp : R; Rap : R; Rvp : R; Rap_prox : R;
  Rmv : R; Rtv : R; Rda : R;
  (* Compliances *)
  Cas : R; Cvs : R; Cas_prox : R; Cap : R; Cvp : R; Cap_prox : R; Cda : R;
  (* Left Ventricle *)
  LV_Ees : R; LV_V0 : R; LV_alpha : R; LV_beta : R;
  LV_Tmax : R; LV_tau : R; LV_AV_delay : R;
  (* Left Atrium *)
  LA_Ees : R; LA_V0 : R; LA_alpha : R; LA_beta : R;
  LA_Tmax : R; LA_tau : R; LA_AV_delay : R;
  (* Right Ventricle *)
  RV_Ees : R; RV_V0 : R; RV_alpha : R; RV_beta : R;
  RV_Tmax : R; RV_tau : R; RV_AV_delay : R;
  (* Right Atrium *)
  RA_Ees : R; RA_V0 : R; RA_alpha : R; RA_beta : R;
  RA_Tmax : R; RA_tau : R; RA_AV_delay : R;
  (* General *)
  HR : R;
  (* Valve Regurgitation (Resistance backward) *)
  Ravr : R; Ravs : R; Rmvr : R; Rmvs : R;
  Rpvr : R; Rpvs : R; Rtvr : R; Rtvs : R
}.

Record SimulationState := {
  Qvs : R; Qas : R; Qap : R; Qvp : R; Qlv : R; Qla : R;
  Qrv : R; Qra : R; Qas_prox : R; Qda : R; Qap_prox : R; Qtube : R
}.

(** The [aux] object built by [rhs] (it also carries [Imv] and [Iasp]). *)
Record Aux := {
  Plv : R; Pla : R; Prv : R; Pra : R; AoP : R; PAP : R; Imv : R; Iasp : R
}.

Record SimulationOutput := {
  out_t : R;
  out_y : SimulationState;
  out_aux : Aux
}.

Definition StateVector := list R.

Record SimInstance := {
  id : string;
  name : string;
  color : string;
  params : SimulationParams;
  targetVolume : R;
  isVisible : bool
}.

Record PhysicsRefState := {
  phys_t : R;
  phys_y : StateVector;
  buffer : list SimulationOutput;
  lastRenderX : R;
  activeParams : SimulationParams
}.

(** ** constants.ts *)

Definition INITIAL_STATE_VECTOR : StateVector :=
  [ 749.9842973712131;  (* Qvs *)
    149.3527787113375;  (* Qas *)
    405.08061599015554; (* Qap *)
    135.97317102061024; (* Qvp *)
    144.32186565319813; (* Qlv *)
    75.34345155268299;  (* Qla *)
    117.70495107318685; (* Qrv *)
    73.76400781737635;  (* Qra *)
    68.42882775454605;  (* Qas_prox *)
    42.75963410693713;  (* Qda *)
    20.28639894876003;  (* Qap_prox *)
    10                  (* Qtube *) ].

Definition INITIAL_TIME : R := 954.931700000081.

Definition DEFAULT_PARAMS : SimulationParams := {|
  Ras := 20; Rcs := 830; Rvs := 25; Ras_prox := 30;
  Rcp := 10; Rap := 13; Rvp := 15; Rap_prox := 15;
  Rmv := 2.5; Rtv := 2.5;
  Cas := 1.83; Cvs := 70; Cas_prox := 0.54;
  Cap := 20; Cvp := 7; Cap_prox := 1.0;
  Rda := 3; Cda := 0.52;

  LV_Ees := 2.21; LV_V0 := 5; LV_alpha := 0.029; LV_beta := 0.34;
  LV_Tmax := 300; LV_tau := 25; LV_AV_delay := 160;
  LA_Ees := 0.48; LA_V0 := 10; LA_alpha := 0.058; LA_beta := 0.44;
  LA_Tmax := 125; LA_tau := 20; LA_AV_delay := 0;
  RV_Ees := 0.74; RV_V0 := 5; RV_alpha := 0.028; RV_beta := 0.34;
  RV_Tmax := 300; RV_tau := 25; RV_AV_delay := 160;
  RA_Ees := 0.38; RA_V0 := 10; RA_alpha := 0.046; RA_beta := 0.44;
  RA_Tmax := 125; RA_tau := 20; RA_AV_delay := 0;

  HR := 60;

  Ravr := 100000; Ravs := 0;
  Rmvr := 100000; Rmvs := 0;
  Rpvr := 100000; Rpvs := 0;
  Rtvr := 100000; Rtvs := 0
|}.

(** ** services/physics.ts *)

Module Physics.

(** Helper: Activation function. *)
Definition e_func (_t Tmax tau HR : R) : R :=
  let T := 60000.0 / HR in
  let t := Js.rem _t T in
  if Js.ltb t Tmax then
    let base := exp (- (T - 1.5 * Tmax) / tau) / 2.0 in
    ((- cos (PI * t / Tmax) + 1.0) / 2.0) * (1.0 - base) + base
  else if Js.ltb t (9.0 * Tmax / 8.0) then
    (cos (2.0 * PI * t / Tmax) + 1.0) / 2.0
  else
    exp (- (t - 9.0 * Tmax / 8.0) / tau) * (2.0 + sqrt 2.0) / 4.0.

(** Helper: Pressure in chamber. *)
Definition P_ch (V t Ees V0 alpha beta Tmax tau AV_delay HR : R) : R :=
  let Ped := beta * (exp (alpha * (V - V0)) - 1.0) in
  let Pes := Ees * (V - V0) in
  Ped + e_func (t - AV_delay) Tmax tau HR * (Pes - Ped).

(** Helper: Valve flow.  (The source's parameter [R] is [R0] here.) *)
Definition valve_flow (deltaP R0 Rs Rr : R) : R :=
  if Js.gtb deltaP 0 then
    if Js.eqb Rs 0 then deltaP / R0
    else (- R0 + sqrt (R0 * R0 + 4.0 * Rs * deltaP)) / (2.0 * Rs)
  else
    if Js.geb Rr 100000 then deltaP / (R0 + Rr)
    else
      let disc := R0 * R0 - 4.0 * Rr * deltaP in
      (- R0 - sqrt disc) / (2.0 * Rr).

(** Right-Hand Side of ODEs.
    y = [Qvs, Qas, Qap, Qvp, Qlv, Qla, Qrv, Qra, Qas_prox, Qda, Qap_prox, Qtube] *)
Definition rhs (t : R) (y : StateVector) (p : SimulationParams)
  : StateVector * Aux :=
  let Qvs := Js.get y 0 in
  let Qas := Js.get y 1 in
  let Qap := Js.get y 2 in
  let Qvp := Js.get y 3 in
  let Qlv := Js.get y 4 in
  let Qla := Js.get y 5 in
  let Qrv := Js.get y 6 in
  let Qra := Js.get y 7 in
  let Qas_prox := Js.get y 8 in
  let Qda := Js.get y 9 in
  let Qap_prox := Js.get y 10 in
  (* Qtube is y[11], but unused in derivative calc (constant) *)

  let HR := p.(HR) in

  let Plv := P_ch Qlv t p.(LV_Ees) p.(LV_V0) p.(LV_alpha) p.(LV_beta)
               p.(LV_Tmax) p.(LV_tau) p.(LV_AV_delay) HR in
  let Pla := P_ch Qla t p.(LA_Ees) p.(LA_V0) p.(LA_alpha) p.(LA_beta)
               p.(LA_Tmax) p.(LA_tau) p.(LA_AV_delay) HR in
  let Prv := P_ch Qrv t p.(RV_Ees) p.(RV_V0) p.(RV_alpha) p.(RV_beta)
               p.(RV_Tmax) p.(RV_tau) p.(RV_AV_delay) HR in
  let Pra := P_ch Qra t p.(RA_Ees) p.(RA_V0) p.(RA_alpha) p.(RA_beta)
               p.(RA_Tmax) p.(RA_tau) p.(RA_AV_delay) HR in

  let Paop := Qas_prox / p.(Cas_prox) in
  let PAP := Qap_prox / p.(Cap_prox) in
  let Pda := Qda / p.(Cda) in
  let Pas := Qas / p.(Cas) in
  let Pvs := Qvs / p.(Cvs) in
  let Pvp := Qvp / p.(Cvp) in
  let Pap := Qap / p.(Cap) in

  let Ida := (Paop - Pda) / p.(Rda) in
  let Ias := (Pda - Pas) / p.(Ras) in
  let Ics := (Pas - Pvs) / p.(Rcs) in
  let Ivs := (Pvs - Pra) / p.(Rvs) in

  let Ivp := (Pvp - Pla) / p.(Rvp) in
  let Iap := (Pap - Pvp) / p.(Rap) in
  let Icp := (PAP - Pap) / p.(Rcp) in

  let Itv := valve_flow (Pra - Prv) p.(Rtv) p.(Rtvs) p.(Rtvr) in
  let Imv := valve_flow (Pla - Plv) p.(Rmv) p.(Rmvs) p.(Rmvr) in
  let Iasp := valve_flow (Plv - Paop) p.(Ras_prox) p.(Ravs) p.(Ravr) in
  let Iapp := valve_flow (Prv - PAP) p.(Rap_prox) p.(Rpvs) p.(Rpvr) in

  let dQvs := Ics - Ivs in
  let dQas := Ias - Ics in
  let dQap := Icp - Iap in
  let dQvp := Iap - Ivp in

  let dQlv := Imv - Iasp in
  let dQla := Ivp - Imv in
  let dQrv := Itv - Iapp in
  let dQra := Ivs - Itv in

  let dQas_prox := Iasp - Ida in
  let dQda := Ida - Ias in
  let dQap_prox := Iapp - Icp in
  let dQtube := 0.0 in

  let dy := [dQvs; dQas; dQap; dQvp; dQlv; dQla; dQrv; dQra;
             dQas_prox; dQda; dQap_prox; dQtube] in
  let aux := {| Plv := Plv; Pla := Pla; Prv := Prv; Pra := Pra;
                AoP := Paop; PAP := PAP; Imv := Imv; Iasp := Iasp |} in
  (dy, aux).

(** The result object of [stepRK4]. *)
Record StepResult := {
  tNext : R;
  yNext : StateVector;
  aux : Aux
}.

(** RK4 Integration Step.  [y.map((val, i) => ...)] is [imap]. *)
Definition stepRK4 (t : R) (y : StateVector) (dt : R) (p : SimulationParams)
  : StepResult :=
  let '(k1, aux) := rhs t y p in (* Capture aux from start of step for plotting *)

  (* k2 *)
  let y_k2 := imap (fun i val => val + dt * Js.get k1 i / 2.0) y in
  let '(k2, _) := rhs (t + dt / 2.0) y_k2 p in

  (* k3 *)
  let y_k3 := imap (fun i val => val + dt * Js.get k2 i / 2.0) y in
  let '(k3, _) := rhs (t + dt / 2.0) y_k3 p in

  (* k4 *)
  let y_k4 := imap (fun i val => val + dt * Js.get k3 i) y in
  let '(k4, _) := rhs (t + dt) y_k4 p in

  let yNext :=
    imap (fun i val =>
            val + dt * (Js.get k1 i + 2 * Js.get k2 i + 2 * Js.get k3 i
                        + Js.get k4 i) / 6.0) y in

  {| tNext := t + dt; yNext := yNext; aux := aux |}.

Definition getTotalVolume (y : StateVector) : R :=
  fold_left (fun acc val => acc + val) y 0.

End Physics.

(** The three formulas of [e_func], as functions of the phase [t], and the
    way [e_func] chooses between them.  [e_func_phase] below shows that
    [e_func] is [e_phase] at the phase [_t % T]. *)
Module Activation.

Definition e_rising (T Tmax tau t : R) : R :=
  let base := exp (- (T - 1.5 * Tmax) / tau) / 2.0 in
  ((- cos (PI * t / Tmax) + 1.0) / 2.0) * (1.0 - base) + base.

Definition e_falling (Tmax t : R) : R :=
  (cos (2.0 * PI * t / Tmax) + 1.0) / 2.0.

Definition e_tail (Tmax tau t : R) : R :=
  exp (- (t - 9.0 * Tmax / 8.0) / tau) * (2.0 + sqrt 2.0) / 4.0.

Definition e_phase (T Tmax tau t : R) : R :=
  if Js.ltb t Tmax then e_rising T Tmax tau t
  else if Js.ltb t (9.0 * Tmax / 8.0) then e_falling Tmax t
  else e_tail Tmax tau t.

End Activation.

(** ** App.tsx: the physics loop *)

Module App.
Import Physics.

Definition PHYSICS_DT : R := 2.0. (* Fixed physics step size (ms) *)
Definition MAX_STEPS_PER_FRAME : Z := 20. (* Prevent spiral of death on lag spikes *)

(** The refs the loop reads and writes. *)
Record AppState := {
  timeScaleRef : R;
  isPlayingRef : bool;
  physicsRefs : gmap string PhysicsRefState;
  instanceRefs : list SimInstance;
  lastFrameTimeRef : R;
  residueTimeRef : R
}.

(** *** One instance, one step *)

Definition phaseT (phys : PhysicsRefState) : R :=
  60000.0 / phys.(activeParams).(HR).
Definition prevPhase (phys : PhysicsRefState) : R :=
  Js.rem (phys.(phys_t) - PHYSICS_DT) (phaseT phys).
Definition currPhase (phys : PhysicsRefState) : R :=
  Js.rem phys.(phys_t) (phaseT phys).

Definition isEndDiastole (phys : PhysicsRefState) : bool :=
  Js.ltb (currPhase phys) (prevPhase phys).
Definition isEndSystole (phys : PhysicsRefState) : bool :=
  let tMax := phys.(activeParams).(LV_Tmax) in
  Js.ltb (prevPhase phys) tMax && Js.geb (currPhase phys) tMax.

(** The assignments [ap.F = p.F] of the [isEndDiastole] block; the fields
    that block does not assign keep the value they have in [ap]. *)
Definition commitEndDiastole (p ap : SimulationParams) : SimulationParams := {|
  HR := p.(HR);

  Ras := p.(Ras); Rcs := p.(Rcs); Rvs := p.(Rvs);
  Ras_prox := p.(Ras_prox); Rda := p.(Rda);
  Rap := p.(Rap); Rvp := p.(Rvp); Rap_prox := p.(Rap_prox); Rcp := p.(Rcp);
  Rmv := p.(Rmv); Rtv := p.(Rtv);

  Cas := p.(Cas); Cvs := p.(Cvs); Cas_prox := p.(Cas_prox); Cda := p.(Cda);
  Cap := p.(Cap); Cvp := p.(Cvp); Cap_prox := p.(Cap_prox);

  LV_Ees := p.(LV_Ees); LV_V0 := p.(LV_V0);
  RV_Ees := p.(RV_Ees); RV_V0 := p.(RV_V0);
  LA_Ees := p.(LA_Ees); LA_V0 := p.(LA_V0);
  RA_Ees := p.(RA_Ees); RA_V0 := p.(RA_V0);

  (* not assigned *)
  LV_alpha := ap.(LV_alpha); LV_beta := ap.(LV_beta);
  LV_Tmax := ap.(LV_Tmax); LV_tau := ap.(LV_tau);
  LV_AV_delay := ap.(LV_AV_delay);
  LA_alpha := ap.(LA_alpha); LA_beta := ap.(LA_beta);
  LA_Tmax := ap.(LA_Tmax); LA_tau := ap.(LA_tau);
  LA_AV_delay := ap.(LA_AV_delay);
  RV_alpha := ap.(RV_alpha); RV_beta := ap.(RV_beta);
  RV_Tmax := ap.(RV_Tmax); RV_tau := ap.(RV_tau);
  RV_AV_delay := ap.(RV_AV_delay);
  RA_alpha := ap.(RA_alpha); RA_beta := ap.(RA_beta);
  RA_Tmax := ap.(RA_Tmax); RA_tau := ap.(RA_tau);
  RA_AV_delay := ap.(RA_AV_delay);
  Ravr := ap.(Ravr); Ravs := ap.(Ravs);
  Rmvr := ap.(Rmvr); Rmvs := ap.(Rmvs);
  Rpvr := ap.(Rpvr); Rpvs := ap.(Rpvs);
  Rtvr := ap.(Rtvr); Rtvs := ap.(Rtvs)
|}.

(** The assignments of the [isEndSystole] block. *)
Definition commitEndSystole (p ap : SimulationParams) : SimulationParams := {|
  LV_alpha := p.(LV_alpha); LV_beta := p.(LV_beta);
  LV_tau := p.(LV_tau); LV_Tmax := p.(LV_Tmax);
  RV_alpha := p.(RV_alpha); RV_beta := p.(RV_beta);
  RV_tau := p.(RV_tau); RV_Tmax := p.(RV_Tmax);
  LA_alpha := p.(LA_alpha); LA_beta := p.(LA_beta); LA_tau := p.(LA_tau);
  RA_alpha := p.(RA_alpha); RA_beta := p.(RA_beta); RA_tau := p.(RA_tau);

  (* not assigned *)
  Ras := ap.(Ras); Rcs := ap.(Rcs); Rvs := ap.(Rvs);
  Ras_prox := ap.(Ras_prox); Rcp := ap.(Rcp); Rap := ap.(Rap);
  Rvp := ap.(Rvp); Rap_prox := ap.(Rap_prox);
  Rmv := ap.(Rmv); Rtv := ap.(Rtv); Rda := ap.(Rda);
  Cas := ap.(Cas); Cvs := ap.(Cvs); Cas_prox := ap.(Cas_prox);
  Cap := ap.(Cap); Cvp := ap.(Cvp); Cap_prox := ap.(Cap_prox);
  Cda := ap.(Cda);
  LV_Ees := ap.(LV_Ees); LV_V0 := ap.(LV_V0);
  LV_AV_delay := ap.(LV_AV_delay);
  LA_Ees := ap.(LA_Ees); LA_V0 := ap.(LA_V0);
  LA_Tmax := ap.(LA_Tmax); LA_AV_delay := ap.(LA_AV_delay);
  RV_Ees := ap.(RV_Ees); RV_V0 := ap.(RV_V0);
  RV_AV_delay := ap.(RV_AV_delay);
  RA_Ees := ap.(RA_Ees); RA_V0 := ap.(RA_V0);
  RA_Tmax := ap.(RA_Tmax); RA_AV_delay := ap.(RA_AV_delay);
  HR := ap.(HR);
  Ravr := ap.(Ravr); Ravs := ap.(Ravs);
  Rmvr := ap.(Rmvr); Rmvs := ap.(Rmvs);
  Rpvr := ap.(Rpvr); Rpvs := ap.(Rpvs);
  Rtvr := ap.(Rtvr); Rtvs := ap.(Rtvs)
|}.

(** [delta] of the [isEndDiastole] block. *)
Definition volumeDelta (uiInst : SimInstance) (y : StateVector) : R :=
  let currentTotal := getTotalVolume y in
  let targetTotal := uiInst.(targetVolume) in
  let diff := targetTotal - currentTotal in
  let maxDelta := 500 in
  Js.max (- maxDelta) (Js.min maxDelta diff).

(** [if (Math.abs(delta) > 1.0) phys.y[0] += delta].  (On an empty array
    the assignment creates element 0; what JavaScript stores there is NaN,
    here it is [0 + delta].) *)
Definition injectVolume (uiInst : SimInstance) (y : StateVector)
  : StateVector :=
  let delta := volumeDelta uiInst y in
  if Js.gtb (Js.abs delta) 1.0 then Js.set0 y (Js.get y 0 + delta)
  else y.

(** [phys.buffer.push(output)], then at most one [shift]. *)
Definition pushOutput (buf : list SimulationOutput) (output : SimulationOutput)
  : list SimulationOutput :=
  let bufferRequiredMs := 21000 in
  let buf1 := buf ++ [output] in
  let cutoffTime := output.(out_t) - bufferRequiredMs in
  match buf1 with
  | oldest :: rest =>
      if Js.ltb oldest.(out_t) cutoffTime then rest else buf1
  | [] => buf1
  end.

(** The body of [instanceRefs.current.forEach], for an instance whose
    physics state is [phys]. *)
Definition stepInstance (uiInst : SimInstance) (phys : PhysicsRefState)
  : PhysicsRefState :=
  let isEndDiastole := isEndDiastole phys in
  let isEndSystole := isEndSystole phys in
  let p := uiInst.(params) in
  let '(ap1, y1) :=
    if isEndDiastole
    then (commitEndDiastole p phys.(activeParams),
          injectVolume uiInst phys.(phys_y))
    else (phys.(activeParams), phys.(phys_y)) in
  let ap2 := if isEndSystole then commitEndSystole p ap1 else ap1 in
  let r := stepRK4 phys.(phys_t) y1 PHYSICS_DT ap2 in
  let yNext := r.(yNext) in
  let output := {|
    out_t := r.(tNext);
    out_y := {|
      Qvs := Js.get yNext 0; Qas := Js.get yNext 1;
      Qap := Js.get yNext 2; Qvp := Js.get yNext 3;
      Qlv := Js.get yNext 4; Qla := Js.get yNext 5;
      Qrv := Js.get yNext 6; Qra := Js.get yNext 7;
      Qas_prox := Js.get yNext 8; Qda := Js.get yNext 9;
      Qap_prox := Js.get yNext 10; Qtube := Js.get yNext 11
    |};
    out_aux := r.(aux)
  |} in
  {| phys_t := r.(tNext);
     phys_y := yNext;
     buffer := pushOutput phys.(buffer) output;
     lastRenderX := phys.(lastRenderX);
     activeParams := ap2 |}.

(** One pass of [instanceRefs.current.forEach]: an instance without a
    physics state is skipped. *)
Definition stepAll (insts : list SimInstance)
  (refs : gmap string PhysicsRefState) : gmap string PhysicsRefState :=
  fold_left
    (fun refs uiInst =>
       match refs !! uiInst.(id) with
       | Some phys => <[uiInst.(id) := stepInstance uiInst phys]> refs
       | None => refs
       end)
    insts refs.

(** *** The scheduler *)

(** [deltaTimeMs]: the first frame (no last frame time yet) has delta 0. *)
Definition deltaTimeMs (now : R) (st : AppState) : R :=
  let last :=
    if Js.eqb st.(lastFrameTimeRef) 0 then now else st.(lastFrameTimeRef) in
  now - last.

(** From the accumulated time: the steps to run and the residue kept. *)
Definition schedule (residue : R) : Z * R :=
  let stepsToRun := Js.floor (residue / PHYSICS_DT) in
  if (stepsToRun >? MAX_STEPS_PER_FRAME)%Z
  then (MAX_STEPS_PER_FRAME, 0) (* Reset residue to avoid endless catch-up *)
  else (stepsToRun, residue - IZR stepsToRun * PHYSICS_DT).

(** The number of iterations of [for (let i = 0; i < stepsToRun; i++)]. *)
Definition iterations (stepsToRun : Z) : nat := Z.to_nat stepsToRun.

Definition loop (now : R) (st : AppState) : AppState :=
  let deltaTimeMs := deltaTimeMs now st in
  if negb st.(isPlayingRef) then
    {| timeScaleRef := st.(timeScaleRef);
       isPlayingRef := st.(isPlayingRef);
       physicsRefs := st.(physicsRefs);
       instanceRefs := st.(instanceRefs);
       lastFrameTimeRef := now;
       residueTimeRef := 0 (* Reset accumulated time if paused *) |}
  else
    let '(stepsToRun, residue) :=
      schedule (st.(residueTimeRef) + deltaTimeMs * st.(timeScaleRef)) in
    {| timeScaleRef := st.(timeScaleRef);
       isPlayingRef := st.(isPlayingRef);
       physicsRefs :=
         Nat.iter (iterations stepsToRun) (stepAll st.(instanceRefs))
           st.(physicsRefs);
       instanceRefs := st.(instanceRefs);
       lastFrameTimeRef := now;
       residueTimeRef := residue |}.

(** The steps a frame executes: 0 when paused. *)
Definition stepsExecuted (now : R) (st : AppState) : nat :=
  if negb st.(isPlayingRef) then 0%nat
  else
    iterations
      (schedule (st.(residueTimeRef)
                 + deltaTimeMs now st * st.(timeScaleRef))).1.

(** A sequence of frames, given by the [now] of each: the state after
    them, the steps they execute and the wall-clock time they span. *)
Definition runFrames (nows : list R) (st : AppState) : AppState :=
  fold_left (fun st now => loop now st) nows st.

Fixpoint totalSteps (nows : list R) (st : AppState) : nat :=
  match nows with
  | [] => 0%nat
  | now :: nows' => (stepsExecuted now st + totalSteps nows' (loop now st))%nat
  end.

Fixpoint totalDelta (nows : list R) (st : AppState) : R :=
  match nows with
  | [] => 0
  | now :: nows' => deltaTimeMs now st + totalDelta nows' (loop now st)
  end.

(** No frame of the sequence finds more than [MAX_STEPS_PER_FRAME] steps
    in the accumulated time. *)
Fixpoint noOverload (nows : list R) (st : AppState) : Prop :=
  match nows with
  | [] => True
  | now :: nows' =>
      (Js.floor ((st.(residueTimeRef)
                  + deltaTimeMs now st * st.(timeScaleRef)) / PHYSICS_DT)
       <= MAX_STEPS_PER_FRAME)%Z
      /\ noOverload nows' (loop now st)
  end.

(** The frame times never go backwards. *)
Fixpoint monotoneClock (nows : list R) (st : AppState) : Prop :=
  match nows with
  | [] => True
  | now :: nows' => 0 <= deltaTimeMs now st /\ monotoneClock nows' (loop now st)
  end.

(** *** Init physics refs *)

Definition syncTime (refs : gmap string PhysicsRefState) : R :=
  map_fold
    (fun _ p syncTime =>
       if Js.gtb p.(phys_t) syncTime then p.(phys_t) else syncTime)
    INITIAL_TIME refs.

Definition initPhysicsRefs (instances : list SimInstance)
  (refs : gmap string PhysicsRefState) : gmap string PhysicsRefState :=
  let refs1 :=
    fold_left
      (fun refs inst =>
         match refs !! inst.(id) with
         | Some _ => refs
         | None =>
             <[inst.(id) := {| phys_t := syncTime refs;
                               phys_y := INITIAL_STATE_VECTOR;
                               buffer := [];
                               lastRenderX := 0;
                               activeParams := inst.(params) |}]> refs
         end)
      instances refs in
  filter (fun kv => kv.1 ∈ (id <$> instances)) refs1.

(** *** The state the application starts from *)

Definition INSTANCE_COLORS : list string :=
  ["#a855f7"; "#f472b6"; "#22c55e"; "#38bdf8"; "#fbbf24"].

Definition heartA : SimInstance := {|
  id := "1"; name := "Heart A"; color := "#a855f7";
  params := DEFAULT_PARAMS;
  targetVolume := getTotalVolume INITIAL_STATE_VECTOR;
  isVisible := true
|}.

Definition initialInstances : list SimInstance := [heartA].

Definition initialState : AppState := {|
  timeScaleRef := 1.0;
  isPlayingRef := true;
  physicsRefs := initPhysicsRefs initialInstances ∅;
  instanceRefs := initialInstances;
  lastFrameTimeRef := 0;
  residueTimeRef := 0
|}.

End App.

(** The classical fourth-order Runge-Kutta step on vectors, written with
    vector operations, to compare [stepRK4] with:
    [y + dt (k1 + 2 k2 + 2 k3 + k4) / 6]. *)
Module Rk4Spec.
Import Physics.

Definition vadd (u v : list R) : list R := zip_with Rplus u v.
Definition vscale (c : R) (v : list R) : list R := map (Rmult c) v.

Section Step.
Variables (t : R) (y : StateVector) (dt : R) (p : SimulationParams).

Definition k1 : list R := (rhs t y p).1.
Definition k2 : list R :=
  (rhs (t + dt / 2) (vadd y (vscale (dt / 2) k1)) p).1.
Definition k3 : list R :=
  (rhs (t + dt / 2) (vadd y (vscale (dt / 2) k2)) p).1.
Definition k4 : list R :=
  (rhs (t + dt) (vadd y (vscale dt k3)) p).1.

Definition yNext : list R :=
  vadd y
    (vscale (dt / 6)
       (vadd (vadd (vadd k1 (vscale 2 k2)) (vscale 2 k3)) k4)).
End Step.

End Rk4Spec.

(** ** Predicates on the output buffers and on the reachable physics states *)

Module Retention.
Import App.

(** The oldest retained entry's time is within 21 000 ms of the newest's. *)
Definition retained (buf : list SimulationOutput) : Prop :=
  forall oldest newest,
    head buf = Some oldest -> last buf = Some newest ->
    newest.(out_t) - oldest.(out_t) <= 21000.

(** Consecutive entries are one physics step apart. *)
Fixpoint spaced (buf : list SimulationOutput) : Prop :=
  match buf with
  | a :: rest =>
      match rest with
      | b :: _ => b.(out_t) = a.(out_t) + PHYSICS_DT
      | [] => True
      end /\ spaced rest
  | [] => True
  end.

(** The buffer of a physics state: entries one step apart, the newest at
    the state's time, the oldest within the retention horizon. *)
Definition bufferInv (phys : PhysicsRefState) : Prop :=
  spaced phys.(buffer)
  /\ (forall newest, last phys.(buffer) = Some newest ->
                     newest.(out_t) = phys.(phys_t))
  /\ retained phys.(buffer).

(** The physics maps the application can reach: it starts with an empty
    map; the instance manager runs [initPhysicsRefs]; the loop replaces the
    state of an instance by the state after a step. *)
Inductive reachableRefs : gmap string PhysicsRefState -> Prop :=
| reach_empty : reachableRefs ∅
| reach_init instances refs :
    reachableRefs refs -> reachableRefs (initPhysicsRefs instances refs)
| reach_step uiInst phys refs :
    reachableRefs refs ->
    refs !! uiInst.(id) = Some phys ->
    reachableRefs (<[uiInst.(id) := stepInstance uiInst phys]> refs).

End Retention.

(** ** The two passes of [initPhysicsRefs] *)

(** The state the instance manager creates for an instance at time [tau]. *)
Definition freshPhys (tau : R) (inst : SimInstance) : PhysicsRefState :=
  {| phys_t := tau; phys_y := INITIAL_STATE_VECTOR; buffer := [];
     lastRenderX := 0; activeParams := inst.(params) |}.

(** The creation pass of [initPhysicsRefs]. *)
Definition createMissing (instances : list SimInstance)
  (refs : gmap string PhysicsRefState) : gmap string PhysicsRefState :=
  fold_left
    (fun refs inst =>
       match refs !! inst.(id) with
       | Some _ => refs
       | None => <[inst.(id) := freshPhys (App.syncTime refs) inst]> refs
       end)
    instances refs.

(** ** The state record of an output *)

(** The [y] object the loop stores in an output, built from a state vector. *)
Definition stateOf (y : StateVector) : SimulationState := {|
  Qvs := Js.get y 0; Qas := Js.get y 1; Qap := Js.get y 2;
  Qvp := Js.get y 3; Qlv := Js.get y 4; Qla := Js.get y 5;
  Qrv := Js.get y 6; Qra := Js.get y 7; Qas_prox := Js.get y 8;
  Qda := Js.get y 9; Qap_prox := Js.get y 10; Qtube := Js.get y 11
|}.

(** ** App.tsx: instance and panel handlers *)

Module Handlers.

(** [Math.round]: to the nearest integer, halves upwards. *)
Definition round (x : R) : Z := Zfloor (x + 0.5).

(** [!b] for an optional boolean field ([undefined] is falsy). *)
Definition not_opt (b : option bool) : bool := negb (default false b).

(** [removeInstance], on the [instances] and [activeInstanceId] states:
    [instances[0]] is read from the list before the removal. *)
Definition removeInstance (rid : string) (instances : list SimInstance)
  (activeInstanceId : string) : list SimInstance * string :=
  (filter (fun i => i.(id) <> rid) instances,
   if decide (activeInstanceId = rid)
   then default "" (id <$> head instances)
   else activeInstanceId).

Inductive PanelType :=
| PVLOOP | WAVEFORM | METRICS | GUYTON_RIGHT | GUYTON_LEFT | GUYTON_3D.

(** An entry of [PanelInstanceConfig]. *)
Record PanelInstanceCfg := {
  visible : bool;
  selectedSignals : list string;
  customColors : option (gmap string string)
}.

Record PanelDef := {
  panel_id : string;
  panel_type : PanelType;
  title : string;
  panel_w : R;
  panel_h : R;
  config : gmap string PanelInstanceCfg;
  isSettingsOpen : option bool;
  showGuides : option bool;
  timeWindow : option R
}.

(** [toggleSettings]: the settings of the panel are toggled, those of every
    other panel are closed. *)
Definition toggleSettings (panelId : string) (panels : list PanelDef)
  : list PanelDef :=
  map (fun p =>
         if decide (p.(panel_id) = panelId)
         then {| panel_id := p.(panel_id); panel_type := p.(panel_type);
                 title := p.(title);
                 panel_w := p.(panel_w); panel_h := p.(panel_h);
                 config := p.(config);
                 isSettingsOpen := Some (not_opt p.(isSettingsOpen));
                 showGuides := p.(showGuides);
                 timeWindow := p.(timeWindow) |}
         else {| panel_id := p.(panel_id); panel_type := p.(panel_type);
                 title := p.(title);
                 panel_w := p.(panel_w); panel_h := p.(panel_h);
                 config := p.(config);
                 isSettingsOpen := Some false;
                 showGuides := p.(showGuides);
                 timeWindow := p.(timeWindow) |})
      panels.

(** The [resizeState] ref. *)
Record ResizeState := {
  panelId : string;
  startX : R;
  startY : R;
  startW : R;
  startH : R
}.

(** [onResizeMove], for a mouse event at [(clientX, clientY)]. *)
Definition onResizeMove (resizeState : option ResizeState)
  (clientX clientY : R) (panels : list PanelDef) : list PanelDef :=
  match resizeState with
  | None => panels
  | Some rs =>
      let dx := clientX - rs.(startX) in
      let dy := clientY - rs.(startY) in
      let wDelta := round (dx / 50) in
      let hDelta := round (dy / 50) in
      let newW := Js.max 2 (Js.min 12 (rs.(startW) + IZR wDelta)) in
      let newH := Js.max 4 (Js.min 20 (rs.(startH) + IZR hDelta)) in
      map (fun p =>
             if decide (p.(panel_id) = rs.(panelId))
             then {| panel_id := p.(panel_id); panel_type := p.(panel_type);
                     title := p.(title);
                     panel_w := newW; panel_h := newH;
                     config := p.(config);
                     isSettingsOpen := p.(isSettingsOpen);
                     showGuides := p.(showGuides);
                     timeWindow := p.(timeWindow) |}
             else p)
          panels
  end.

(** [onDragEnd], for the indices held by [dragItemRef] and
    [dragOverItemRef]: the panel at [srcIdx] is taken out and put back at
    [dstIdx].  (With [srcIdx] out of range JavaScript inserts [undefined];
    the result is then no list of panels, and the model gives [None].) *)
Definition onDragEnd (srcIdx dstIdx : option nat) (panels : list PanelDef)
  : option (list PanelDef) :=
  match srcIdx, dstIdx with
  | Some src, Some dst =>
      if decide (src <> dst) then
        match panels !! src with
        | Some removed =>
            let next := delete src panels in
            Some (take dst next ++ removed :: drop dst next)
        | None => None
        end
      else Some panels
  | _, _ => Some panels
  end.

(** The default signals the instance manager's effect gives a new instance
    in a panel. *)
Definition defaultSigs (ty : PanelType) : list string :=
  match ty with
  | PVLOOP => ["LV"]
  | WAVEFORM => ["Plv"; "AoP"]
  | METRICS => ["ABP"; "CO"]
  | GUYTON_RIGHT | GUYTON_LEFT | GUYTON_3D => ["default"]
  end.

(** The update the effect applies to a panel for a new instance: a panel
    that has a configuration for the instance is kept as it is. *)
Definition addInstanceConfig (inst : SimInstance) (p : PanelDef) : PanelDef :=
  match p.(config) !! inst.(id) with
  | Some _ => p
  | None =>
      {| panel_id := p.(panel_id); panel_type := p.(panel_type);
         title := p.(title);
         panel_w := p.(panel_w); panel_h := p.(panel_h);
         config := <[inst.(id) := {| visible := true;
                                     selectedSignals :=
                                       defaultSigs p.(panel_type);
                                     customColors := None |}]> p.(config);
         isSettingsOpen := p.(isSettingsOpen);
         showGuides := p.(showGuides);
         timeWindow := p.(timeWindow) |}
  end.

(** The whole "Init physics refs" effect, on the physics map and the panels:
    for every instance without a physics state it creates the state and
    gives every panel a configuration for the instance; then it deletes the
    states of the ids that are no instance. *)
Definition initEffect (instances : list SimInstance)
  (refs : gmap string PhysicsRefState) (panels : list PanelDef)
  : gmap string PhysicsRefState * list PanelDef :=
  let st :=
    fold_left
      (fun (st : gmap string PhysicsRefState * list PanelDef) inst =>
         match st.1 !! inst.(id) with
         | Some _ => st
         | None =>
             (<[inst.(id) := {| phys_t := App.syncTime st.1;
                                phys_y := INITIAL_STATE_VECTOR;
                                buffer := [];
                                lastRenderX := 0;
                                activeParams := inst.(params) |}]> st.1,
              map (addInstanceConfig inst) st.2)
         end)
      instances (refs, panels) in
  (filter (fun kv => kv.1 ∈ (id <$> instances)) st.1, st.2).

(** Every panel has a configuration for every key of the physics map. *)
Definition configsCover (refs : gmap string PhysicsRefState)
  (panels : list PanelDef) : Prop :=
  forall p k, p ∈ panels -> is_Some (refs !! k) -> is_Some (config p !! k).

(** The panels the application starts with. *)
Definition initialPanels : list PanelDef :=
  [ {| panel_id := "p1"; panel_type := GUYTON_RIGHT;
       title := "Guyton (Right)"; panel_w := 6; panel_h := 8;
       config := {[ "1" := {| visible := true;
                              selectedSignals := ["Default"];
                              customColors := None |} ]};
       isSettingsOpen := Some false; showGuides := None;
       timeWindow := None |};
    {| panel_id := "p2"; panel_type := GUYTON_LEFT;
       title := "Guyton (Left)"; panel_w := 6; panel_h := 8;
       config := {[ "1" := {| visible := true;
                              selectedSignals := ["Default"];
                              customColors := None |} ]};
       isSettingsOpen := Some false; showGuides := None;
       timeWindow := None |};
    {| panel_id := "p3"; panel_type := METRICS;
       title := "Metrics"; panel_w := 12; panel_h := 4;
       config := {[ "1" := {| visible := true;
                              selectedSignals :=
                                ["ABP"; "CO"; "CVP"; "PCWP"; "SV"; "Ea_LV"];
                              customColors := None |} ]};
       isSettingsOpen := Some false; showGuides := None;
       timeWindow := None |} ].

End Handlers.

(** ** components/Charts.tsx: the Starling curve *)

Module Charts.

(** [getStarlingCO].  ([Math.log] is [ln]; it is only evaluated at a
    positive argument when [P_ed >= 0] and [beta > 0].) *)
Definition getStarlingCO (P_ed Ees V0 alpha beta Ea HR : R) : R :=
  if Js.ltb P_ed 0 then 0
  else
    let term := (Ees / (Ees + Ea)) * (1.0 / alpha)
                * ln ((P_ed + beta) / beta) in
    let sv_est := Js.max 0 term in
    (sv_est * HR) / 1000.0. (* L/min *)

End Charts.

(** ** Concrete inputs *)

(** [DEFAULT_PARAMS] with an aortic regurgitation resistance [Ravr = 50]. *)
Definition aorticLeakParams : SimulationParams := {|
  Ras := 20; Rcs := 830; Rvs := 25; Ras_prox := 30;
  Rcp := 10; Rap := 13; Rvp := 15; Rap_prox := 15;
  Rmv := 2.5; Rtv := 2.5;
  Cas := 1.83; Cvs := 70; Cas_prox := 0.54;
  Cap := 20; Cvp := 7; Cap_prox := 1.0;
  Rda := 3; Cda := 0.52;

  LV_Ees := 2.21; LV_V0 := 5; LV_alpha := 0.029; LV_beta := 0.34;
  LV_Tmax := 300; LV_tau := 25; LV_AV_delay := 160;
  LA_Ees := 0.48; LA_V0 := 10; LA_alpha := 0.058; LA_beta := 0.44;
  LA_Tmax := 125; LA_tau := 20; LA_AV_delay := 0;
  RV_Ees := 0.74; RV_V0 := 5; RV_alpha := 0.028; RV_beta := 0.34;
  RV_Tmax := 300; RV_tau := 25; RV_AV_delay := 160;
  RA_Ees := 0.38; RA_V0 := 10; RA_alpha := 0.046; RA_beta := 0.44;
  RA_Tmax := 125; RA_tau := 20; RA_AV_delay := 0;

  HR := 60;

  Ravr := 50; Ravs := 0;
  Rmvr := 100000; Rmvs := 0;
  Rpvr := 100000; Rpvs := 0;
  Rtvr := 100000; Rtvs := 0
|}.

(** "Heart A" after the user has set [Ravr] to 50. *)
Definition leakyHeart : SimInstance := {|
  id := "1"; name := "Heart A"; color := "#a855f7";
  params := aorticLeakParams;
  targetVolume := Physics.getTotalVolume INITIAL_STATE_VECTOR;
  isVisible := true
|}.

(** "Heart A" after the user has raised the target volume by 10000. *)
Definition volumeLoadedHeart : SimInstance := {|
  id := "1"; name := "Heart A"; color := "#a855f7";
  params := DEFAULT_PARAMS;
  targetVolume := Physics.getTotalVolume INITIAL_STATE_VECTOR + 10000;
  isVisible := true
|}.

(** The physics state [initPhysicsRefs] creates for "Heart A". *)
Definition initialPhys : PhysicsRefState := {|
  phys_t := INITIAL_TIME;
  phys_y := INITIAL_STATE_VECTOR;
  buffer := [];
  lastRenderX := 0;
  activeParams := DEFAULT_PARAMS
|}.

(** A physics state with the default parameters at [t = 1001]: with
    [T = 1000] the previous phase is 999 and the current phase is 1. *)
Definition physAtWrap : PhysicsRefState := {|
  phys_t := 1001;
  phys_y := INITIAL_STATE_VECTOR;
  buffer := [];
  lastRenderX := 0;
  activeParams := DEFAULT_PARAMS
|}.

(** A physics state with the default parameters at [t = 1300]: with
    [T = 1000] the previous phase is 298 and the current phase is 300, the
    active [LV_Tmax]. *)
Definition physAtSystole : PhysicsRefState := {|
  phys_t := 1300;
  phys_y := INITIAL_STATE_VECTOR;
  buffer := [];
  lastRenderX := 0;
  activeParams := DEFAULT_PARAMS
|}.

(** A physics state with the default parameters at [t = 1100], in the middle
    of the rise: the previous phase is 98 and the current phase is 100. *)
Definition physMidBeat : PhysicsRefState := {|
  phys_t := 1100;
  phys_y := INITIAL_STATE_VECTOR;
  buffer := [];
  lastRenderX := 0;
  activeParams := DEFAULT_PARAMS
|}.

(** "Heart A" after 10502 steps from its initial physics state (21 004 ms of
    simulated time, more than the retention horizon), and the physics map
    holding that state. *)
Definition longRunPhys : PhysicsRefState :=
  Nat.iter (Z.to_nat 10502) (App.stepInstance App.heartA) initialPhys.

Definition longRunRefs : gmap string PhysicsRefState :=
  <["1" := longRunPhys]> (App.physicsRefs App.initialState).

(** A second instance, as [addInstance] names and colours it, with the
    leaking aortic valve. *)
Definition heartB : SimInstance := {|
  id := "2"; name := "Heart B"; color := "#f472b6";
  params := aorticLeakParams;
  targetVolume := Physics.getTotalVolume INITIAL_STATE_VECTOR;
  isVisible := true
|}.

(** The application with both instances, playing at speed 1, after a frame
    at time 1000. *)
Definition twoHeartState : App.AppState := {|
  App.timeScaleRef := 1.0;
  App.isPlayingRef := true;
  App.physicsRefs := App.initPhysicsRefs [App.heartA; heartB] ∅;
  App.instanceRefs := [App.heartA; heartB];
  App.lastFrameTimeRef := 1000;
  App.residueTimeRef := 0
|}.

(** ** Properties *)

(** Decimal literals ([2.0], [1.5], ...) as quotients of integers, for
    [field] and [ring]. *)
Ltac js_lit := cbv [Q2R QArith_base.Qnum QArith_base.Qden] in *.

(** *** The JavaScript operators *)

Section JsFacts.

Lemma ltb_true (x y : R) : x < y -> Js.ltb x y = true.
Proof. intros H. unfold Js.ltb. destruct (Rlt_dec x y); [reflexivity|contradiction]. Qed.

Lemma ltb_false (x y : R) : y <= x -> Js.ltb x y = false.
Proof. intros H. unfold Js.ltb. destruct (Rlt_dec x y); [lra|reflexivity]. Qed.

Lemma ltb_spec (x y : R) : Js.ltb x y = true <-> x < y.
Proof.
  unfold Js.ltb. destruct (Rlt_dec x y); split; intros; try easy.
Qed.

Lemma gtb_true (x y : R) : x > y -> Js.gtb x y = true.
Proof. intros H. unfold Js.gtb. destruct (Rgt_dec x y); [reflexivity|contradiction]. Qed.

Lemma gtb_false (x y : R) : x <= y -> Js.gtb x y = false.
Proof. intros H. unfold Js.gtb. destruct (Rgt_dec x y); [lra|reflexivity]. Qed.

Lemma gtb_irrefl (x : R) : Js.gtb x x = false.
Proof. apply gtb_false. lra. Qed.

Lemma geb_true (x y : R) : x >= y -> Js.geb x y = true.
Proof. intros H. unfold Js.geb. destruct (Rge_dec x y); [reflexivity|contradiction]. Qed.

Lemma geb_false (x y : R) : x < y -> Js.geb x y = false.
Proof. intros H. unfold Js.geb. destruct (Rge_dec x y); [lra|reflexivity]. Qed.

Lemma geb_spec (x y : R) : Js.geb x y = true <-> x >= y.
Proof.
  unfold Js.geb. destruct (Rge_dec x y); split; intros; try easy.
Qed.

Lemma eqb_true (x y : R) : x = y -> Js.eqb x y = true.
Proof. intros H. unfold Js.eqb. destruct (Req_dec_T x y); [reflexivity|contradiction]. Qed.

Lemma eqb_false (x y : R) : x <> y -> Js.eqb x y = false.
Proof. intros H. unfold Js.eqb. destruct (Req_dec_T x y); [contradiction|reflexivity]. Qed.

(** [trunc] rounds towards zero. *)
Lemma trunc_nonneg (x : R) : 0 <= x -> IZR (Js.trunc x) <= x < IZR (Js.trunc x) + 1.
Proof.
  intros H. unfold Js.trunc. destruct (Rle_dec 0 x); [|contradiction].
  apply Zfloor_bound.
Qed.

Lemma trunc_neg (x : R) : x < 0 -> IZR (Js.trunc x) - 1 < x <= IZR (Js.trunc x).
Proof.
  intros H. unfold Js.trunc. destruct (Rle_dec 0 x); [lra|].
  apply Zceil_bound.
Qed.

Lemma trunc_eq (x : R) (z : Z) :
  (0 <= x -> IZR z <= x < IZR z + 1) ->
  (x < 0 -> IZR z - 1 < x <= IZR z) ->
  Js.trunc x = z.
Proof.
  intros Hp Hn. unfold Js.trunc. destruct (Rle_dec 0 x).
  - apply Zfloor_eq. auto.
  - apply Zceil_eq. apply Hn. lra.
Qed.

Lemma div_nonneg (a b : R) : 0 <= a -> 0 < b -> 0 <= a / b.
Proof.
  intros Ha Hb. unfold Rdiv. apply Rmult_le_pos; [assumption|].
  left. apply Rinv_0_lt_compat. assumption.
Qed.

Lemma div_neg (a b : R) : a < 0 -> 0 < b -> a / b < 0.
Proof.
  intros Ha Hb. pose proof (Rinv_0_lt_compat b Hb) as Hi.
  unfold Rdiv. nra.
Qed.

(** The remainder of a non-negative dividend lies in [[0, b)]. *)
Lemma rem_nonneg (a b : R) : 0 <= a -> 0 < b -> 0 <= Js.rem a b < b.
Proof.
  intros Ha Hb. unfold Js.rem.
  assert (Hq : 0 <= a / b) by (apply div_nonneg; lra).
  pose proof (trunc_nonneg _ Hq) as [H1 H2].
  assert (E : a = b * (a / b)) by (field; lra).
  split.
  - assert (b * IZR (Js.trunc (a / b)) <= b * (a / b))
      by (apply Rmult_le_compat_l; lra).
    lra.
  - assert (b * (a / b) < b * (IZR (Js.trunc (a / b)) + 1))
      by (apply Rmult_lt_compat_l; lra).
    lra.
Qed.

(** The remainder of a non-positive dividend lies in [(-b, 0]]. *)
Lemma rem_nonpos (a b : R) : a <= 0 -> 0 < b -> - b < Js.rem a b <= 0.
Proof.
  intros Ha Hb. destruct (Req_dec_T a 0) as [->|Hne].
  - unfold Js.rem. unfold Rdiv. rewrite Rmult_0_l.
    rewrite (trunc_eq 0 0) by (intros; lra). lra.
  - unfold Js.rem.
    assert (Hq : a / b < 0) by (apply div_neg; lra).
    pose proof (trunc_neg _ Hq) as [H1 H2].
    assert (E : a = b * (a / b)) by (field; lra).
    split.
    + assert (b * (IZR (Js.trunc (a / b)) - 1) < b * (a / b))
        by (apply Rmult_lt_compat_l; lra).
      lra.
    + assert (b * (a / b) <= b * IZR (Js.trunc (a / b)))
        by (apply Rmult_le_compat_l; lra).
      lra.
Qed.

(** A dividend already within one period is its own remainder. *)
Lemma rem_small (a b : R) : - b < a < b -> Js.rem a b = a.
Proof.
  intros [H1 H2]. assert (Hb : 0 < b) by lra.
  unfold Js.rem. rewrite (trunc_eq (a / b) 0).
  - lra.
  - intros Hq. split; [lra|].
    apply (Rmult_lt_reg_r b); [lra|].
    replace (a / b * b) with a by (field; lra). lra.
  - intros Hq. split; [|lra].
    apply (Rmult_lt_reg_r b); [lra|].
    replace (a / b * b) with a by (field; lra). lra.
Qed.

Lemma rem_idem (a b : R) : 0 < b -> Js.rem (Js.rem a b) b = Js.rem a b.
Proof.
  intros Hb. apply rem_small.
  destruct (Rle_dec 0 a).
  - pose proof (rem_nonneg a b); lra.
  - pose proof (rem_nonpos a b); lra.
Qed.

End JsFacts.


Section ValveFlow.
Import Physics.

(** With a closed valve ([Rr >= 100000]) the reverse branch is linear and a
    zero gradient gives a zero flow. *)
Lemma valve_flow_zero_closed (R0 Rs Rr : R) :
  Rr >= 100000 -> valve_flow 0 R0 Rs Rr = 0.
Proof.
  intros H. unfold valve_flow.
  rewrite gtb_irrefl, geb_true by exact H.
  unfold Rdiv. apply Rmult_0_l.
Qed.

(** With a leaking valve ([0 < Rr < 100000]) the quadratic branch is taken
    and a zero gradient gives the flow [- R0 / Rr]. *)
Lemma valve_flow_zero_leaking (R0 Rs Rr : R) :
  0 < R0 -> 0 < Rr -> Rr < 100000 -> valve_flow 0 R0 Rs Rr = - R0 / Rr.
Proof.
  intros HR Hr Hlt. unfold valve_flow.
  rewrite gtb_irrefl, geb_false by exact Hlt.
  cbv zeta.
  replace (R0 * R0 - 4.0 * Rr * 0) with (R0 * R0) by lra.
  rewrite sqrt_square by lra.
  replace 2.0 with 2 by lra.
  field. lra.
Qed.

(** C1 (the code at the failing input): with [R = 2.5], [Rs = 0] and a
    regurgitation resistance [Rr = 10] below the closed-valve threshold, the
    valve flow at a zero pressure gradient is [-0.25], not [0]. *)
Theorem valve_flow_zero_gradient_not_zero :
  valve_flow 0 (5 / 2) 0 10 = - (1 / 4) /\ valve_flow 0 (5 / 2) 0 10 <> 0.
Proof.
  assert (E : valve_flow 0 (5 / 2) 0 10 = - (1 / 4)).
  { rewrite valve_flow_zero_leaking by lra. field. }
  split; [exact E | rewrite E; lra].
Qed.

End ValveFlow.

(** *** The activation function *)

Section ActivationFacts.
Import Physics Activation.

(** [e_func] is [e_phase] at the phase [_t % T]. *)
Lemma e_func_phase (t Tmax tau HR : R) :
  e_func t Tmax tau HR
  = e_phase (60000.0 / HR) Tmax tau (Js.rem t (60000.0 / HR)).
Proof. reflexivity. Qed.

Lemma period_pos (HR : R) : 0 < HR -> 0 < 60000.0 / HR.
Proof.
  intros H. pose proof (Rinv_0_lt_compat HR H). unfold Rdiv. nra.
Qed.

Lemma sqrt2_sq : sqrt 2 * sqrt 2 = 2.
Proof. apply sqrt_sqrt. lra. Qed.

Lemma sqrt2_pos : 0 < sqrt 2.
Proof. apply sqrt_lt_R0. lra. Qed.

Lemma inv_sqrt2 : 1 / sqrt 2 = sqrt 2 / 2.
Proof.
  pose proof sqrt2_sq. pose proof sqrt2_pos.
  apply (Rmult_eq_reg_r (sqrt 2)); [|lra].
  replace (1 / sqrt 2 * sqrt 2) with 1 by (field; lra). lra.
Qed.

(** The rising formula reaches 1 at [Tmax]. *)
Lemma e_rising_at_Tmax (T Tmax tau : R) :
  Tmax <> 0 -> e_rising T Tmax tau Tmax = 1.
Proof.
  intros H. unfold e_rising. cbv zeta.
  replace (PI * Tmax / Tmax) with PI by (field; assumption).
  rewrite cos_PI. lra.
Qed.

(** The falling formula starts from 1 at [Tmax]. *)
Lemma e_falling_at_Tmax (Tmax : R) : Tmax <> 0 -> e_falling Tmax Tmax = 1.
Proof.
  intros H. unfold e_falling.
  replace (2.0 * PI * Tmax / Tmax) with (2 * PI)
    by (js_lit; field; assumption).
  rewrite cos_2PI. lra.
Qed.

(** The falling formula reaches [(2 + sqrt 2) / 4] at [9 Tmax / 8]. *)
Lemma e_falling_at_knee (Tmax : R) :
  Tmax <> 0 -> e_falling Tmax (9.0 * Tmax / 8.0) = (2 + sqrt 2) / 4.
Proof.
  intros H. unfold e_falling.
  replace (2.0 * PI * (9.0 * Tmax / 8.0) / Tmax)
    with (PI / 4 + 2 * INR 1 * PI) by (simpl; js_lit; field; assumption).
  rewrite cos_period, cos_PI4, inv_sqrt2. lra.
Qed.

(** The exponential tail starts from [(2 + sqrt 2) / 4] at [9 Tmax / 8]. *)
Lemma e_tail_at_knee (Tmax tau : R) :
  e_tail Tmax tau (9.0 * Tmax / 8.0) = (2 + sqrt 2) / 4.
Proof.
  unfold e_tail.
  replace (- (9.0 * Tmax / 8.0 - 9.0 * Tmax / 8.0) / tau) with 0
    by (unfold Rdiv; js_lit; ring).
  rewrite exp_0. replace 2.0 with 2 by lra. lra.
Qed.

(** Each formula is a continuous function of the phase. *)
Lemma e_rising_continuous (T Tmax tau a : R) :
  continuity_pt (e_rising T Tmax tau) a.
Proof. apply derivable_continuous_pt. unfold e_rising. reg. Qed.

Lemma e_falling_continuous (Tmax a : R) : continuity_pt (e_falling Tmax) a.
Proof. apply derivable_continuous_pt. unfold e_falling. reg. Qed.

Lemma e_tail_continuous (Tmax tau a : R) :
  continuity_pt (e_tail Tmax tau) a.
Proof. apply derivable_continuous_pt. unfold e_tail. reg. Qed.

(** Two continuous functions that agree at [a], glued at [a]. *)
Lemma continuity_pt_glue (f g h : R -> R) (a d : R) :
  0 < d ->
  (forall x, a - d < x < a -> h x = f x) ->
  (forall x, a <= x < a + d -> h x = g x) ->
  f a = g a ->
  continuity_pt f a -> continuity_pt g a -> continuity_pt h a.
Proof.
  intros Hd Hl Hr Hfg Hf Hg eps Heps.
  destruct (Hf eps Heps) as (af & Haf & Hf').
  destruct (Hg eps Heps) as (ag & Hag & Hg').
  exists (Rmin d (Rmin af ag)). split.
  { apply Rmin_pos; [lra|]. apply Rmin_pos; lra. }
  intros x [[_ Hne] Hx]. simpl in Hx, Hf', Hg' |- *.
  unfold R_dist in *.
  assert (Hxd : Rabs (x - a) < d)
    by (eapply Rlt_le_trans; [exact Hx|apply Rmin_l]).
  assert (Hxf : Rabs (x - a) < af).
  { eapply Rlt_le_trans; [exact Hx|].
    eapply Rle_trans; [apply Rmin_r|apply Rmin_l]. }
  assert (Hxg : Rabs (x - a) < ag).
  { eapply Rlt_le_trans; [exact Hx|].
    eapply Rle_trans; [apply Rmin_r|apply Rmin_r]. }
  apply Rabs_def2 in Hxd. destruct Hxd as [Hd1 Hd2].
  rewrite (Hr a) by lra.
  destruct (Rlt_dec x a) as [Hlt|Hge].
  - rewrite (Hl x) by lra. rewrite <- Hfg.
    apply Hf'. split; [|assumption]. split; [exact I|assumption].
  - rewrite (Hr x) by lra.
    apply Hg'. split; [|assumption]. split; [exact I|assumption].
Qed.

(** [e_phase] is continuous at the boundary [Tmax]. *)
Lemma e_phase_continuous_at_Tmax (T Tmax tau : R) :
  0 < Tmax -> continuity_pt (e_phase T Tmax tau) Tmax.
Proof.
  intros H.
  apply (continuity_pt_glue (e_rising T Tmax tau) (e_falling Tmax) _ _
           (Tmax / 8)).
  - lra.
  - intros x Hx. unfold e_phase. rewrite ltb_true by lra. reflexivity.
  - intros x Hx. unfold e_phase.
    rewrite ltb_false by lra. rewrite ltb_true by lra. reflexivity.
  - rewrite e_rising_at_Tmax, e_falling_at_Tmax by lra. reflexivity.
  - apply e_rising_continuous.
  - apply e_falling_continuous.
Qed.

(** [e_phase] is continuous at the boundary [9 Tmax / 8]. *)
Lemma e_phase_continuous_at_knee (T Tmax tau : R) :
  0 < Tmax -> continuity_pt (e_phase T Tmax tau) (9.0 * Tmax / 8.0).
Proof.
  intros H.
  apply (continuity_pt_glue (e_falling Tmax) (e_tail Tmax tau) _ _
           (Tmax / 8)).
  - lra.
  - intros x Hx. unfold e_phase.
    rewrite ltb_false by lra. rewrite ltb_true by lra. reflexivity.
  - intros x Hx. unfold e_phase.
    rewrite ltb_false by lra. rewrite ltb_false by lra. reflexivity.
  - rewrite e_falling_at_knee, e_tail_at_knee by lra. reflexivity.
  - apply e_falling_continuous.
  - apply e_tail_continuous.
Qed.

(** Around a time whose phase is positive, [t % T] is [t] minus a fixed
    multiple of [T]. *)
Lemma rem_locally_affine (t0 T : R) :
  0 < T -> 0 < Js.rem t0 T ->
  exists (d : R) (k : Z),
    0 < d /\ forall t, t0 - d < t < t0 + d -> Js.rem t T = t - T * IZR k.
Proof.
  intros HT Hph.
  assert (Ht0 : 0 < t0).
  { destruct (Rlt_dec 0 t0); [assumption|].
    pose proof (rem_nonpos t0 T). lra. }
  pose proof (rem_nonneg t0 T) as Hlt.
  set (k := Js.trunc (t0 / T)).
  assert (Hk : Js.rem t0 T = t0 - T * IZR k) by reflexivity.
  exists (Rmin (Js.rem t0 T) (T - Js.rem t0 T)), k. split.
  { apply Rmin_pos; lra. }
  intros t [H1 H2].
  pose proof (Rmin_l (Js.rem t0 T) (T - Js.rem t0 T)).
  pose proof (Rmin_r (Js.rem t0 T) (T - Js.rem t0 T)).
  assert (Hk0 : 0 <= IZR k).
  { apply IZR_le. unfold k, Js.trunc.
    destruct (Rle_dec 0 (t0 / T)) as [Hq|Hq].
    - apply Zfloor_lub. exact Hq.
    - exfalso. apply Hq. apply div_nonneg; lra. }
  assert (HTk : 0 <= T * IZR k) by (apply Rmult_le_pos; lra).
  assert (Ht : t = T * (t / T)) by (field; lra).
  unfold Js.rem. rewrite (trunc_eq (t / T) k); [reflexivity| |].
  - intros _. split.
    + apply (Rmult_le_reg_l T); [lra|]. lra.
    + apply (Rmult_lt_reg_l T); [lra|]. lra.
  - intros Hq. exfalso.
    assert (0 <= t / T) by (apply div_nonneg; lra). lra.
Qed.

(** As a function of time, [e_func] is continuous wherever [e_phase] is
    continuous at the phase, provided the phase is positive. *)
Lemma e_func_continuous_of_phase (Tmax tau HR t0 : R) :
  0 < HR ->
  0 < Js.rem t0 (60000.0 / HR) ->
  continuity_pt (e_phase (60000.0 / HR) Tmax tau) (Js.rem t0 (60000.0 / HR)) ->
  continuity_pt (fun t => e_func t Tmax tau HR) t0.
Proof.
  intros HHR Hph Hc.
  pose proof (period_pos HR HHR) as HT.
  destruct (rem_locally_affine t0 _ HT Hph) as (d & k & Hd & Hk).
  set (T := 60000.0 / HR) in *.
  set (shift := fun t : R => t - T * IZR k).
  assert (Hc' : continuity_pt (comp (e_phase T Tmax tau) shift) t0).
  { apply continuity_pt_comp.
    - apply derivable_continuous_pt. unfold shift. reg.
    - unfold shift. rewrite <- Hk by lra. exact Hc. }
  apply (continuity_pt_glue (comp (e_phase T Tmax tau) shift)
           (comp (e_phase T Tmax tau) shift) _ _ d Hd);
    [| |reflexivity|exact Hc'|exact Hc'].
  - intros x Hx. rewrite e_func_phase. fold T. unfold comp, shift.
    rewrite Hk by lra. reflexivity.
  - intros x Hx. rewrite e_func_phase. fold T. unfold comp, shift.
    rewrite Hk by lra. reflexivity.
Qed.

End ActivationFacts.

Section ActivationClaims.
Import Physics Activation.

(** C3 (as amended).  For every time [t] and every [HR > 0], with
    [T = 60000 / HR]: [e_func] evaluates its three formulas at the phase
    [t % T], and [e(t) = e(t % T)].  For [t >= 0] that phase lies in
    [[0, T)]; for [t <= 0] it is the remainder of the truncated division and
    lies in [(-T, 0]]: a negative time is not normalised to a non-negative
    phase. *)
Theorem e_func_phase_range (t Tmax tau HR : R) :
  0 < HR ->
  let T := 60000.0 / HR in
  e_func t Tmax tau HR = e_phase T Tmax tau (Js.rem t T) /\
  e_func t Tmax tau HR = e_func (Js.rem t T) Tmax tau HR /\
  (0 <= t -> 0 <= Js.rem t T < T) /\
  (t <= 0 -> - T < Js.rem t T <= 0).
Proof.
  intros HHR T. pose proof (period_pos HR HHR) as HT. fold T in HT.
  repeat split.
  - rewrite !e_func_phase. fold T. rewrite rem_idem by exact HT. reflexivity.
  - apply rem_nonneg; assumption.
  - apply rem_nonneg; assumption.
  - apply rem_nonpos; assumption.
  - apply rem_nonpos; assumption.
Qed.

Lemma e_func_phase_range_witness :
  0 < 60 /\
  e_func 1100 300 25 60 = e_func (Js.rem 1100 (60000.0 / 60)) 300 25 60.
Proof.
  split; [lra|].
  apply (e_func_phase_range 1100 300 25 60). lra.
Defined.

(** C3 (counterexample).  At [t = -100] (with [HR = 60], so [T = 1000]) the
    phase computed by [e_func] is [-100], which is negative, and the
    activation differs from the one a period later, at the non-negative
    phase [900]. *)
Lemma e_func_phase_negative :
  Js.rem (-100) (60000.0 / 60) = -100 /\
  ~ 0 <= Js.rem (-100) (60000.0 / 60) /\
  e_func (-100) 300 25 60 <> e_func (-100 + 60000.0 / 60) 300 25 60.
Proof.
  assert (HT : 60000.0 / 60 = 1000) by lra.
  assert (Hm : Js.rem (-100) 1000 = -100) by (apply rem_small; lra).
  assert (Hp : Js.rem 900 1000 = 900) by (apply rem_small; lra).
  rewrite HT. split; [exact Hm|]. split; [rewrite Hm; lra|].
  replace (-100 + 1000) with 900 by lra.
  rewrite !e_func_phase, HT, Hm, Hp.
  unfold e_phase.
  rewrite (ltb_true (-100) 300) by lra.
  rewrite (ltb_false 900 300) by lra.
  rewrite (ltb_false 900 (9.0 * 300 / 8.0)) by lra.
  unfold e_rising, e_tail. cbv zeta.
  replace (PI * -100 / 300) with (- (PI / 3)) by field.
  rewrite cos_neg, cos_PI3.
  set (base := exp (- (1000 - 1.5 * 300) / 25) / 2.0).
  assert (Hbase : 0 < base).
  { unfold base. pose proof (exp_pos (- (1000 - 1.5 * 300) / 25)). lra. }
  replace (- (900 - 9.0 * 300 / 8.0) / 25) with (Ropp 22.5) by lra.
  rewrite exp_Ropp.
  assert (He : 23.5 < exp 22.5).
  { pose proof (exp_ineq1 22.5). lra. }
  assert (Hi : / exp 22.5 < / 23.5).
  { apply Rinv_lt_contravar; [|exact He].
    apply Rmult_lt_0_compat; lra. }
  assert (Hi0 : 0 < / exp 22.5) by (apply Rinv_0_lt_compat; lra).
  assert (Hi1 : / 23.5 < 1 / 16) by lra.
  pose proof sqrt2_sq. pose proof sqrt2_pos.
  replace (sqrt 2.0) with (sqrt 2) by (f_equal; lra).
  assert (Hs : sqrt 2 < 2) by nra.
  intros E.
  assert (/ exp 22.5 * (2.0 + sqrt 2) < 1) by nra.
  lra.
Qed.

(** C6.  For [Tmax, tau, HR > 0] the formulas of [e_func] agree where one
    takes over from the other: at the phase [Tmax] the rising and the
    falling formula both give 1, at the phase [9 Tmax / 8] the falling
    formula and the exponential tail both give [(2 + sqrt 2) / 4].  Hence
    [e_phase] is continuous at both phases, and [e_func] is continuous at
    every time whose phase is one of the two. *)
Theorem e_func_boundaries_agree (Tmax tau HR : R) :
  0 < Tmax -> 0 < tau -> 0 < HR ->
  let T := 60000.0 / HR in
  (e_rising T Tmax tau Tmax = 1 /\ e_falling Tmax Tmax = 1) /\
  (e_falling Tmax (9.0 * Tmax / 8.0) = (2 + sqrt 2) / 4 /\
   e_tail Tmax tau (9.0 * Tmax / 8.0) = (2 + sqrt 2) / 4) /\
  (e_phase T Tmax tau Tmax = 1 /\
   e_phase T Tmax tau (9.0 * Tmax / 8.0) = (2 + sqrt 2) / 4) /\
  (continuity_pt (e_phase T Tmax tau) Tmax /\
   continuity_pt (e_phase T Tmax tau) (9.0 * Tmax / 8.0)) /\
  (forall t0,
      Js.rem t0 T = Tmax \/ Js.rem t0 T = 9.0 * Tmax / 8.0 ->
      continuity_pt (fun t => e_func t Tmax tau HR) t0).
Proof.
  intros HTmax Htau HHR T.
  split; [split; [apply e_rising_at_Tmax|apply e_falling_at_Tmax]; lra|].
  split; [split; [apply e_falling_at_knee; lra|apply e_tail_at_knee]|].
  split; [split|split].
  - unfold e_phase. rewrite ltb_false, ltb_true by lra.
    apply e_falling_at_Tmax. lra.
  - unfold e_phase. rewrite !ltb_false by lra. apply e_tail_at_knee.
  - split; [apply e_phase_continuous_at_Tmax
           |apply e_phase_continuous_at_knee]; assumption.
  - intros t0 [E|E]; apply e_func_continuous_of_phase; try assumption;
      fold T; rewrite E; try lra.
    + apply e_phase_continuous_at_Tmax; assumption.
    + apply e_phase_continuous_at_knee; assumption.
Qed.

Lemma e_func_boundaries_agree_witness :
  (0 < 300 /\ 0 < 25 /\ 0 < 60) /\
  (e_rising (60000.0 / 60) 300 25 300 = 1 /\ e_falling 300 300 = 1) /\
  (e_falling 300 (9.0 * 300 / 8.0) = (2 + sqrt 2) / 4 /\
   e_tail 300 25 (9.0 * 300 / 8.0) = (2 + sqrt 2) / 4).
Proof.
  split; [lra|].
  destruct (e_func_boundaries_agree 300 25 60) as (H1 & H2 & _);
    [lra|lra|lra|].
  split; [exact H1|exact H2].
Defined.

End ActivationClaims.

(** *** The derivative function and the RK4 step *)

(** A list of length 12, element by element. *)
Ltac list12 y H :=
  do 12 (destruct y as [|? y]; [discriminate H|]);
  destruct y; [clear H|discriminate H].

Section Rk4Facts.
Import Physics.

(** The derivative vector, in terms of the eleven flows. *)
Lemma rhs_dy_form (t : R) (y : StateVector) (p : SimulationParams) :
  exists Ics Ivs Ias Icp Iap Ivp Imv Iasp Itv Iapp Ida : R,
    (rhs t y p).1
    = [Ics - Ivs; Ias - Ics; Icp - Iap; Iap - Ivp;
       Imv - Iasp; Ivp - Imv; Itv - Iapp; Ivs - Itv;
       Iasp - Ida; Ida - Ias; Iapp - Icp; 0].
Proof.
  unfold rhs. cbv zeta. cbn [fst]. replace 0.0 with 0 by lra.
  do 11 eexists. reflexivity.
Qed.

Lemma rhs_length (t : R) (y : StateVector) (p : SimulationParams) :
  length (rhs t y p).1 = 12%nat.
Proof. reflexivity. Qed.

(** The derivatives sum to zero. *)
Lemma rhs_sum_zero (t : R) (y : StateVector) (p : SimulationParams) :
  getTotalVolume (rhs t y p).1 = 0.
Proof.
  destruct (rhs_dy_form t y p)
    as (Ics & Ivs & Ias & Icp & Iap & Ivp & Imv & Iasp & Itv & Iapp & Ida & E).
  rewrite E. unfold getTotalVolume. cbn [fold_left]. ring.
Qed.

(** [stepRK4], with its four derivative vectors named. *)
Lemma stepRK4_unfold (t : R) (y : StateVector) (dt : R) (p : SimulationParams) :
  let k1 := (rhs t y p).1 in
  let k2 := (rhs (t + dt / 2.0)
               (imap (fun i val => val + dt * Js.get k1 i / 2.0) y) p).1 in
  let k3 := (rhs (t + dt / 2.0)
               (imap (fun i val => val + dt * Js.get k2 i / 2.0) y) p).1 in
  let k4 := (rhs (t + dt)
               (imap (fun i val => val + dt * Js.get k3 i) y) p).1 in
  stepRK4 t y dt p
  = {| tNext := t + dt;
       yNext :=
         imap (fun i val =>
                 val + dt * (Js.get k1 i + 2 * Js.get k2 i
                             + 2 * Js.get k3 i + Js.get k4 i) / 6.0) y;
       aux := (rhs t y p).2 |}.
Proof.
  intros k1 k2 k3 k4. unfold stepRK4, k4, k3, k2, k1.
  destruct (rhs t y p) as [d1 a1]. cbn [fst snd].
  destruct (rhs (t + dt / 2.0) _ p) as [d2 a2]. cbn [fst snd].
  destruct (rhs (t + dt / 2.0) _ p) as [d3 a3]. cbn [fst snd].
  destruct (rhs (t + dt) _ p) as [d4 a4]. cbn [fst snd].
  reflexivity.
Qed.

(** The [map]-with-index forms of [stepRK4] are the vector operations. *)
Lemma stage_half (y k : list R) (dt : R) :
  length y = 12%nat -> length k = 12%nat ->
  imap (fun i val => val + dt * Js.get k i / 2.0) y
  = Rk4Spec.vadd y (Rk4Spec.vscale (dt / 2) k).
Proof.
  intros Hy Hk. list12 y Hy. list12 k Hk.
  cbv [imap Js.get nth compose Rk4Spec.vadd Rk4Spec.vscale zip_with map].
  repeat (f_equal; try lra).
Qed.

Lemma stage_full (y k : list R) (dt : R) :
  length y = 12%nat -> length k = 12%nat ->
  imap (fun i val => val + dt * Js.get k i) y
  = Rk4Spec.vadd y (Rk4Spec.vscale dt k).
Proof.
  intros Hy Hk. list12 y Hy. list12 k Hk.
  cbv [imap Js.get nth compose Rk4Spec.vadd Rk4Spec.vscale zip_with map].
  reflexivity.
Qed.

Lemma stage_combine (y k1 k2 k3 k4 : list R) (dt : R) :
  length y = 12%nat ->
  length k1 = 12%nat -> length k2 = 12%nat ->
  length k3 = 12%nat -> length k4 = 12%nat ->
  imap (fun i val =>
          val + dt * (Js.get k1 i + 2 * Js.get k2 i
                      + 2 * Js.get k3 i + Js.get k4 i) / 6.0) y
  = Rk4Spec.vadd y
      (Rk4Spec.vscale (dt / 6)
         (Rk4Spec.vadd
            (Rk4Spec.vadd (Rk4Spec.vadd k1 (Rk4Spec.vscale 2 k2))
               (Rk4Spec.vscale 2 k3)) k4)).
Proof.
  intros Hy H1 H2 H3 H4.
  list12 y Hy. list12 k1 H1. list12 k2 H2. list12 k3 H3. list12 k4 H4.
  cbv [imap Js.get nth compose Rk4Spec.vadd Rk4Spec.vscale zip_with map].
  repeat (f_equal; try lra).
Qed.

(** The total volume after adding a multiple of a vector of derivatives. *)
Lemma total_combine (y k1 k2 k3 k4 : list R) (dt : R) :
  length y = 12%nat ->
  length k1 = 12%nat -> length k2 = 12%nat ->
  length k3 = 12%nat -> length k4 = 12%nat ->
  getTotalVolume
    (imap (fun i val =>
             val + dt * (Js.get k1 i + 2 * Js.get k2 i
                         + 2 * Js.get k3 i + Js.get k4 i) / 6.0) y)
  = getTotalVolume y
    + dt * (getTotalVolume k1 + 2 * getTotalVolume k2
            + 2 * getTotalVolume k3 + getTotalVolume k4) / 6.
Proof.
  intros Hy H1 H2 H3 H4.
  list12 y Hy. list12 k1 H1. list12 k2 H2. list12 k3 H3. list12 k4 H4.
  cbv [imap Js.get nth compose getTotalVolume fold_left]. lra.
Qed.

End Rk4Facts.

Section Rk4Claims.
Import Physics.

(** C9.  For a 12-element state [y], [stepRK4 t y dt p] returns
    [tNext = t + dt], the next state [y + dt (k1 + 2 k2 + 2 k3 + k4) / 6]
    with [k1 .. k4] the derivatives at [(t, y)], [(t + dt/2, y + dt k1 / 2)],
    [(t + dt/2, y + dt k2 / 2)] and [(t + dt, y + dt k3)], and the [aux] of
    the first evaluation, the one at [(t, y)]. *)
Theorem stepRK4_is_rk4 (t : R) (y : StateVector) (dt : R) (p : SimulationParams) :
  length y = 12%nat ->
  tNext (stepRK4 t y dt p) = t + dt /\
  yNext (stepRK4 t y dt p) = Rk4Spec.yNext t y dt p /\
  aux (stepRK4 t y dt p) = (rhs t y p).2.
Proof.
  intros Hy. rewrite stepRK4_unfold. cbn [tNext yNext aux].
  split; [reflexivity|]. split; [|reflexivity].
  unfold Rk4Spec.yNext, Rk4Spec.k4, Rk4Spec.k3, Rk4Spec.k2, Rk4Spec.k1.
  replace (dt / 2.0) with (dt / 2) by lra.
  rewrite !stage_half, !stage_full by (assumption || apply rhs_length).
  apply stage_combine; assumption || apply rhs_length.
Qed.

Lemma stepRK4_is_rk4_witness :
  length INITIAL_STATE_VECTOR = 12%nat /\
  yNext (stepRK4 INITIAL_TIME INITIAL_STATE_VECTOR 2.0 DEFAULT_PARAMS)
  = Rk4Spec.yNext INITIAL_TIME INITIAL_STATE_VECTOR 2.0 DEFAULT_PARAMS.
Proof.
  split; [reflexivity|].
  apply (stepRK4_is_rk4 INITIAL_TIME INITIAL_STATE_VECTOR 2.0 DEFAULT_PARAMS).
  reflexivity.
Defined.

(** C10.  The twelve derivatives returned by [rhs] sum to zero, for every
    [t], [y] and [p]: each is a difference of flows, every flow is added once
    and subtracted once, and the derivative of the reservoir is zero.  Hence
    one RK4 step leaves the total volume of a 12-element state unchanged. *)
Theorem rk4_conserves_volume (t : R) (y : StateVector) (dt : R) (p : SimulationParams) :
  getTotalVolume (rhs t y p).1 = 0 /\
  Js.get (rhs t y p).1 11 = 0 /\
  (length y = 12%nat ->
   getTotalVolume (yNext (stepRK4 t y dt p)) = getTotalVolume y).
Proof.
  split; [apply rhs_sum_zero|].
  split.
  { destruct (rhs_dy_form t y p)
      as (Ics & Ivs & Ias & Icp & Iap & Ivp & Imv & Iasp & Itv & Iapp & Ida & E).
    rewrite E. reflexivity. }
  intros Hy. rewrite stepRK4_unfold. cbn [yNext].
  rewrite total_combine by (assumption || apply rhs_length).
  rewrite !rhs_sum_zero. lra.
Qed.

Lemma rk4_conserves_volume_witness :
  length INITIAL_STATE_VECTOR = 12%nat /\
  getTotalVolume
    (yNext (stepRK4 INITIAL_TIME INITIAL_STATE_VECTOR 2.0 DEFAULT_PARAMS))
  = getTotalVolume INITIAL_STATE_VECTOR.
Proof.
  split; [reflexivity|].
  apply (rk4_conserves_volume INITIAL_TIME INITIAL_STATE_VECTOR 2.0
           DEFAULT_PARAMS).
  reflexivity.
Defined.

End Rk4Claims.

(** *** The scheduler *)

Section SchedulerFacts.
Import App.

Lemma floor_step_bounds (acc : R) :
  IZR (Js.floor (acc / PHYSICS_DT)) * 2 <= acc
  < IZR (Js.floor (acc / PHYSICS_DT)) * 2 + 2.
Proof.
  unfold Js.floor, PHYSICS_DT.
  pose proof (Zfloor_bound (acc / 2.0)) as [H1 H2]. lra.
Qed.

Lemma schedule_clamped (acc : R) :
  (Js.floor (acc / PHYSICS_DT) > MAX_STEPS_PER_FRAME)%Z ->
  schedule acc = (MAX_STEPS_PER_FRAME, 0).
Proof.
  intros H. unfold schedule. cbv zeta.
  destruct (Z.gtb_spec (Js.floor (acc / PHYSICS_DT)) MAX_STEPS_PER_FRAME);
    [reflexivity|lia].
Qed.

Lemma schedule_carry (acc : R) :
  (Js.floor (acc / PHYSICS_DT) <= MAX_STEPS_PER_FRAME)%Z ->
  schedule acc
  = (Js.floor (acc / PHYSICS_DT),
     acc - IZR (Js.floor (acc / PHYSICS_DT)) * PHYSICS_DT).
Proof.
  intros H. unfold schedule. cbv zeta.
  destruct (Z.gtb_spec (Js.floor (acc / PHYSICS_DT)) MAX_STEPS_PER_FRAME);
    [lia|reflexivity].
Qed.

Lemma floor_nonneg (acc : R) : 0 <= acc -> (0 <= Js.floor (acc / PHYSICS_DT))%Z.
Proof.
  intros H. apply (Zfloor_lub 0). unfold PHYSICS_DT. lra.
Qed.

(** What [loop] does to the physics states and to the accumulator. *)
Lemma loop_physicsRefs (now : R) (st : AppState) :
  physicsRefs (loop now st)
  = Nat.iter (stepsExecuted now st) (stepAll (instanceRefs st))
      (physicsRefs st).
Proof.
  unfold loop, stepsExecuted.
  destruct (isPlayingRef st); cbn [negb]; [|reflexivity].
  destruct (schedule _) as [n r]. reflexivity.
Qed.

Lemma loop_residue (now : R) (st : AppState) :
  isPlayingRef st = true ->
  residueTimeRef (loop now st)
  = (schedule (residueTimeRef st + deltaTimeMs now st * timeScaleRef st)).2.
Proof.
  intros Hp. unfold loop. rewrite Hp. cbn [negb].
  destruct (schedule _) as [n r]. reflexivity.
Qed.

Lemma loop_paused (now : R) (st : AppState) :
  isPlayingRef st = false ->
  residueTimeRef (loop now st) = 0 /\ stepsExecuted now st = 0%nat /\
  physicsRefs (loop now st) = physicsRefs st.
Proof.
  intros Hp. unfold loop, stepsExecuted. rewrite Hp. cbn [negb].
  repeat split.
Qed.

Lemma loop_flags (now : R) (st : AppState) :
  isPlayingRef (loop now st) = isPlayingRef st /\
  timeScaleRef (loop now st) = timeScaleRef st /\
  instanceRefs (loop now st) = instanceRefs st /\
  lastFrameTimeRef (loop now st) = now.
Proof.
  unfold loop. destruct (isPlayingRef st); cbn [negb].
  - destruct (schedule _) as [n r]. repeat split.
  - repeat split.
Qed.

(** While playing, with a clock that does not go backwards and a
    non-negative speed, a frame leaves a residue in [[0, 2)] or 0. *)
Lemma loop_residue_range (now : R) (st : AppState) :
  isPlayingRef st = true ->
  0 <= residueTimeRef st + deltaTimeMs now st * timeScaleRef st ->
  0 <= residueTimeRef (loop now st) < 2.
Proof.
  intros Hp Hacc. rewrite loop_residue by exact Hp.
  set (acc := residueTimeRef st + deltaTimeMs now st * timeScaleRef st) in *.
  pose proof (floor_step_bounds acc) as [H1 H2].
  destruct (Z_gt_le_dec (Js.floor (acc / PHYSICS_DT)) MAX_STEPS_PER_FRAME)
    as [Hgt|Hle].
  - rewrite schedule_clamped by exact Hgt. cbn [snd]. lra.
  - rewrite schedule_carry by exact Hle. cbn [snd].
    unfold PHYSICS_DT in *. lra.
Qed.

Lemma deltaTimeMs_first (now : R) (st : AppState) :
  lastFrameTimeRef st = 0 -> deltaTimeMs now st = 0.
Proof.
  intros H. unfold deltaTimeMs. rewrite eqb_true by exact H. lra.
Qed.

Lemma deltaTimeMs_next (now : R) (st : AppState) :
  lastFrameTimeRef st <> 0 -> deltaTimeMs now st = now - lastFrameTimeRef st.
Proof.
  intros H. unfold deltaTimeMs. rewrite eqb_false by exact H. reflexivity.
Qed.

(** A frame at speed 1 whose accumulated time holds [n <= 20] steps. *)
Lemma loop_eval (now : R) (st : AppState) (n : Z) :
  isPlayingRef st = true ->
  timeScaleRef st = 1 ->
  IZR n * 2 <= residueTimeRef st + deltaTimeMs now st < IZR n * 2 + 2 ->
  (n <= MAX_STEPS_PER_FRAME)%Z ->
  Js.floor ((residueTimeRef st + deltaTimeMs now st * timeScaleRef st)
            / PHYSICS_DT) = n
  /\ residueTimeRef (loop now st)
     = residueTimeRef st + deltaTimeMs now st - IZR n * 2.
Proof.
  intros Hp Hs Hn Hle. rewrite Hs, Rmult_1_r.
  assert (E : Js.floor ((residueTimeRef st + deltaTimeMs now st) / PHYSICS_DT)
              = n).
  { apply Zfloor_eq. unfold PHYSICS_DT. lra. }
  split; [exact E|].
  rewrite loop_residue by exact Hp. rewrite Hs, Rmult_1_r.
  rewrite schedule_carry by (rewrite E; exact Hle).
  cbn [snd]. rewrite E. unfold PHYSICS_DT. lra.
Qed.

(** The physics states after a sequence of frames. *)
Lemma runFrames_physicsRefs (nows : list R) (st : AppState) :
  physicsRefs (runFrames nows st)
  = Nat.iter (totalSteps nows st) (stepAll (instanceRefs st))
      (physicsRefs st).
Proof.
  revert st. induction nows as [|now nows IH]; intros st; [reflexivity|].
  cbn [runFrames fold_left totalSteps]. fold (runFrames nows (loop now st)).
  rewrite IH, loop_physicsRefs.
  destruct (loop_flags now st) as (_ & _ & -> & _).
  rewrite Nat.add_comm, Nat.iter_add. reflexivity.
Qed.

(** Without overload, the time accumulated is the time stepped plus the
    residue. *)
Lemma frames_accounting (nows : list R) (st : AppState) :
  isPlayingRef st = true ->
  timeScaleRef st = 1 ->
  0 <= residueTimeRef st ->
  monotoneClock nows st ->
  noOverload nows st ->
  INR (totalSteps nows st) * 2 + residueTimeRef (runFrames nows st)
  = residueTimeRef st + totalDelta nows st
  /\ 0 <= residueTimeRef (runFrames nows st)
  /\ (residueTimeRef st < 2 -> residueTimeRef (runFrames nows st) < 2).
Proof.
  revert st. induction nows as [|now nows IH]; intros st Hp Hs Hr Hm Ho.
  { cbn. split; [lra|]. split; [assumption|auto]. }
  cbn [totalSteps totalDelta runFrames fold_left].
  fold (runFrames nows (loop now st)).
  destruct Hm as [Hd Hm]. destruct Ho as [Hle Ho].
  rewrite Hs, Rmult_1_r in Hle.
  assert (Hacc : 0 <= residueTimeRef st + deltaTimeMs now st) by lra.
  destruct (loop_flags now st) as (Hp' & Hs' & _ & _).
  pose proof (loop_residue_range now st Hp) as Hrange.
  rewrite Hs, Rmult_1_r in Hrange. specialize (Hrange Hacc).
  destruct (IH (loop now st)) as (E & H0 & H2); try assumption;
    try congruence; try lra.
  split; [|split; [assumption|intros _; apply H2; lra]].
  rewrite plus_INR.
  assert (Est : INR (stepsExecuted now st) * 2
                + residueTimeRef (loop now st)
                = residueTimeRef st + deltaTimeMs now st).
  { rewrite loop_residue by exact Hp. unfold stepsExecuted.
    rewrite Hp, Hs, Rmult_1_r. cbn [negb].
    rewrite schedule_carry by exact Hle. cbn [fst snd].
    unfold iterations. rewrite INR_IZR_INZ, Z2Nat.id
      by (apply floor_nonneg; exact Hacc).
    unfold PHYSICS_DT. lra. }
  lra.
Qed.

(** A frame at speed 1 with wall-clock delta [d] whose accumulated time
    holds [n <= 20] whole steps ([n] may be negative). *)
Lemma frame_eval (now : R) (st : AppState) (n : Z) (d : R) :
  isPlayingRef st = true ->
  timeScaleRef st = 1 ->
  deltaTimeMs now st = d ->
  IZR n * 2 <= residueTimeRef st + d < IZR n * 2 + 2 ->
  (n <= MAX_STEPS_PER_FRAME)%Z ->
  stepsExecuted now st = Z.to_nat n /\
  Js.floor ((residueTimeRef st + deltaTimeMs now st * timeScaleRef st)
            / PHYSICS_DT) = n /\
  residueTimeRef (loop now st) = residueTimeRef st + d - IZR n * 2 /\
  isPlayingRef (loop now st) = true /\
  timeScaleRef (loop now st) = 1 /\
  lastFrameTimeRef (loop now st) = now /\
  instanceRefs (loop now st) = instanceRefs st.
Proof.
  intros Hp Hs Hd Hn Hle.
  destruct (loop_eval now st n Hp Hs) as [F R0];
    [rewrite Hd; exact Hn|exact Hle|].
  destruct (loop_flags now st) as (Hp' & Hs' & Hi' & Hl').
  split.
  { unfold stepsExecuted. rewrite Hp. cbn [negb].
    rewrite schedule_carry by (rewrite F; exact Hle).
    cbn [fst]. rewrite F. reflexivity. }
  split; [exact F|]. split; [rewrite R0, Hd; reflexivity|].
  split; [congruence|]. split; [congruence|]. split; assumption.
Qed.

(** Three frames 16 and 17 ms apart from the initial state: no step, then
    8 and 8 steps, and 1 ms left in the accumulator. *)
Lemma threeFrames_eval :
  let st1 := loop 1000 initialState in
  let st2 := loop 1016 st1 in
  let st3 := loop 1033 st2 in
  (deltaTimeMs 1000 initialState = 0 /\ deltaTimeMs 1016 st1 = 16 /\
   deltaTimeMs 1033 st2 = 17) /\
  (stepsExecuted 1000 initialState = 0%nat /\ stepsExecuted 1016 st1 = 8%nat /\
   stepsExecuted 1033 st2 = 8%nat) /\
  (residueTimeRef st1 = 0 /\ residueTimeRef st2 = 0 /\ residueTimeRef st3 = 1).
Proof.
  intros st1 st2 st3.
  assert (Hs0 : timeScaleRef initialState = 1) by (cbn; lra).
  assert (Hd1 : deltaTimeMs 1000 initialState = 0)
    by (apply deltaTimeMs_first; reflexivity).
  destruct (frame_eval 1000 initialState 0 0 eq_refl Hs0 Hd1)
    as (E1 & _ & R1 & Hp1 & Hs1 & Hl1 & _);
    [cbn [initialState residueTimeRef]; lra
    |unfold MAX_STEPS_PER_FRAME; lia|].
  fold st1 in R1, Hp1, Hs1, Hl1.
  cbn [initialState residueTimeRef] in R1.
  assert (R1' : residueTimeRef st1 = 0) by lra.
  assert (Hd2 : deltaTimeMs 1016 st1 = 16)
    by (rewrite deltaTimeMs_next; rewrite Hl1; lra).
  destruct (frame_eval 1016 st1 8 16 Hp1 Hs1 Hd2)
    as (E2 & _ & R2 & Hp2 & Hs2 & Hl2 & _);
    [rewrite R1'; lra|unfold MAX_STEPS_PER_FRAME; lia|].
  fold st2 in R2, Hp2, Hs2, Hl2.
  assert (R2' : residueTimeRef st2 = 0) by (rewrite R2, R1'; lra).
  assert (Hd3 : deltaTimeMs 1033 st2 = 17)
    by (rewrite deltaTimeMs_next; rewrite Hl2; lra).
  destruct (frame_eval 1033 st2 8 17 Hp2 Hs2 Hd3)
    as (E3 & _ & R3 & _);
    [rewrite R2'; lra|unfold MAX_STEPS_PER_FRAME; lia|].
  fold st3 in R3.
  assert (R3' : residueTimeRef st3 = 1) by (rewrite R3, R2'; lra).
  split; [split; [exact Hd1|split; [exact Hd2|exact Hd3]]|].
  split; [split; [exact E1|split; [exact E2|exact E3]]|].
  split; [exact R1'|split; [exact R2'|exact R3']].
Qed.

End SchedulerFacts.

Section SchedulerClaims.
Import App.

(** C4.  In a frame run while playing, with [stepsToRun] the whole number
    of 2 ms steps in the accumulated time: if [stepsToRun > 20] the frame
    executes exactly 20 physics steps and resets the accumulator to 0;
    otherwise it executes [stepsToRun] steps and takes [stepsToRun * 2.0] off
    the accumulator.  The physics states after the frame are those after
    that many passes over the instances.  In particular a frame with a
    wall-clock delta of 10000 ms at speed 1 executes 20 steps and leaves
    the accumulator at 0. *)
Theorem loop_step_cap (now : R) (st : AppState) :
  isPlayingRef st = true ->
  let acc := residueTimeRef st + deltaTimeMs now st * timeScaleRef st in
  let stepsToRun := Js.floor (acc / PHYSICS_DT) in
  ((stepsToRun > 20)%Z ->
   stepsExecuted now st = 20%nat /\ residueTimeRef (loop now st) = 0) /\
  ((stepsToRun <= 20)%Z ->
   stepsExecuted now st = Z.to_nat stepsToRun /\
   (0 <= acc -> Z.of_nat (stepsExecuted now st) = stepsToRun) /\
   residueTimeRef (loop now st) = acc - IZR stepsToRun * 2.0) /\
  physicsRefs (loop now st)
  = Nat.iter (stepsExecuted now st) (stepAll (instanceRefs st))
      (physicsRefs st) /\
  (timeScaleRef st = 1 -> deltaTimeMs now st = 10000 ->
   0 <= residueTimeRef st ->
   stepsExecuted now st = 20%nat /\ residueTimeRef (loop now st) = 0).
Proof.
  intros Hp acc stepsToRun.
  assert (Hcap : (stepsToRun > 20)%Z ->
                 stepsExecuted now st = 20%nat
                 /\ residueTimeRef (loop now st) = 0).
  { intros Hgt. rewrite loop_residue by exact Hp.
    unfold stepsExecuted. rewrite Hp. cbn [negb]. fold acc.
    rewrite schedule_clamped by exact Hgt. split; reflexivity. }
  split; [exact Hcap|]. split; [|split].
  - intros Hle. rewrite loop_residue by exact Hp.
    unfold stepsExecuted. rewrite Hp. cbn [negb]. fold acc.
    rewrite schedule_carry by exact Hle. cbn [fst snd]. fold stepsToRun.
    split; [reflexivity|]. split; [|reflexivity].
    intros Hacc. unfold iterations. apply Z2Nat.id.
    apply floor_nonneg. exact Hacc.
  - apply loop_physicsRefs.
  - intros Hs Hd Hr. apply Hcap.
    assert (Hacc : acc = residueTimeRef st + 10000)
      by (unfold acc; rewrite Hs, Hd; lra).
    assert (Hlb : (5000 <= stepsToRun)%Z).
    { apply Zfloor_lub. rewrite Hacc. unfold PHYSICS_DT. lra. }
    lia.
Qed.

Lemma loop_step_cap_witness :
  let st := loop 1000 initialState in
  isPlayingRef st = true /\
  deltaTimeMs 11000 st = 10000 /\
  stepsExecuted 11000 st = 20%nat /\ residueTimeRef (loop 11000 st) = 0.
Proof.
  intros st.
  destruct (loop_flags 1000 initialState) as (Hp & Hs & _ & Hl).
  fold st in Hp, Hs, Hl. cbn [initialState isPlayingRef timeScaleRef] in Hp, Hs.
  assert (Hd : deltaTimeMs 11000 st = 10000)
    by (rewrite deltaTimeMs_next; rewrite Hl; lra).
  assert (Hr : residueTimeRef st = 0).
  { destruct (loop_eval 1000 initialState 0) as [_ E];
      try reflexivity; cbn [initialState timeScaleRef residueTimeRef];
      try lra; try (unfold MAX_STEPS_PER_FRAME; lia).
    - rewrite deltaTimeMs_first by reflexivity. lra.
    - fold st in E. rewrite E, deltaTimeMs_first by reflexivity.
      cbn [initialState residueTimeRef]. lra. }
  split; [exact Hp|]. split; [exact Hd|].
  apply (loop_step_cap 11000 st Hp); [lra|exact Hd|lra].
Defined.

(** C7 (as amended).  For every sequence of frames run while playing at
    speed 1 from a zero accumulator, with frame times that never go
    backwards (every wall-clock delta is non-negative) and no frame
    reaching the overload clamp: the number of 2 ms steps executed is
    [floor (D / 2)], where [D] is the sum of the frames' wall-clock deltas
    (so it is within one step of it), and the physics states after the
    frames are those after that many passes over the instances. *)
Theorem scheduler_step_conservation (nows : list R) (st : AppState) :
  isPlayingRef st = true ->
  timeScaleRef st = 1 ->
  residueTimeRef st = 0 ->
  monotoneClock nows st ->
  noOverload nows st ->
  Z.of_nat (totalSteps nows st) = Js.floor (totalDelta nows st / 2) /\
  (Z.abs (Z.of_nat (totalSteps nows st)
          - Js.floor (totalDelta nows st / 2)) <= 1)%Z /\
  physicsRefs (runFrames nows st)
  = Nat.iter (Z.to_nat (Js.floor (totalDelta nows st / 2)))
      (stepAll (instanceRefs st)) (physicsRefs st).
Proof.
  intros Hp Hs Hr Hm Ho.
  destruct (frames_accounting nows st) as (E & H0 & H2);
    try assumption; [lra|].
  assert (Eq : Z.of_nat (totalSteps nows st)
               = Js.floor (totalDelta nows st / 2)).
  { symmetry. apply Zfloor_eq. rewrite <- INR_IZR_INZ. lra. }
  split; [exact Eq|]. split; [rewrite Eq; lia|].
  rewrite <- Eq, Nat2Z.id. apply runFrames_physicsRefs.
Qed.

Lemma scheduler_step_conservation_witness :
  let nows := [1000; 1016; 1033] in
  (isPlayingRef initialState = true /\ timeScaleRef initialState = 1 /\
   residueTimeRef initialState = 0 /\
   monotoneClock nows initialState /\ noOverload nows initialState) /\
  totalDelta nows initialState = 33 /\
  totalSteps nows initialState = 16%nat /\
  physicsRefs (runFrames nows initialState)
  = Nat.iter 16 (stepAll (instanceRefs initialState))
      (physicsRefs initialState).
Proof.
  intros nows.
  set (st1 := loop 1000 initialState).
  set (st2 := loop 1016 st1).
  destruct (loop_flags 1000 initialState) as (Hp1 & Hs1 & _ & Hl1).
  destruct (loop_flags 1016 st1) as (Hp2 & Hs2 & _ & Hl2).
  fold st1 in Hp1, Hs1, Hl1, Hp2, Hs2. fold st2 in Hp2, Hs2, Hl2.
  rewrite Hp1 in Hp2. rewrite Hs1 in Hs2.
  cbn [initialState isPlayingRef timeScaleRef] in Hp1, Hs1, Hp2, Hs2.
  assert (Hs0 : timeScaleRef initialState = 1) by (cbn; lra).
  assert (Hs1' : timeScaleRef st1 = 1) by lra.
  assert (Hs2' : timeScaleRef st2 = 1) by lra.
  assert (Hd1 : deltaTimeMs 1000 initialState = 0)
    by (apply deltaTimeMs_first; reflexivity).
  assert (Hd2 : deltaTimeMs 1016 st1 = 16)
    by (rewrite deltaTimeMs_next; rewrite Hl1; lra).
  assert (Hd3 : deltaTimeMs 1033 st2 = 17)
    by (rewrite deltaTimeMs_next; rewrite Hl2; lra).
  destruct (loop_eval 1000 initialState 0) as [F1 R1];
    try reflexivity; try assumption;
    try (rewrite Hd1; cbn [initialState residueTimeRef]; lra);
    try (unfold MAX_STEPS_PER_FRAME; lia).
  fold st1 in R1. rewrite Hd1 in R1. cbn [initialState residueTimeRef] in R1.
  assert (R1' : residueTimeRef st1 = 0) by lra.
  destruct (loop_eval 1016 st1 8) as [F2 R2]; try assumption;
    try (rewrite Hd2, R1'; lra); try (unfold MAX_STEPS_PER_FRAME; lia).
  fold st2 in R2. rewrite Hd2, R1' in R2.
  assert (R2' : residueTimeRef st2 = 0) by lra.
  destruct (loop_eval 1033 st2 8) as [F3 R3]; try assumption;
    try (rewrite Hd3, R2'; lra); try (unfold MAX_STEPS_PER_FRAME; lia).
  assert (HD : totalDelta nows initialState = 33).
  { unfold nows. cbn [totalDelta]. fold st1. fold st2.
    rewrite Hd1, Hd2, Hd3. lra. }
  assert (Hm : monotoneClock nows initialState).
  { unfold nows. cbn [monotoneClock]. fold st1. fold st2.
    rewrite Hd1, Hd2, Hd3. repeat split; lra. }
  assert (Hn : noOverload nows initialState).
  { unfold nows. cbn [noOverload]. fold st1. fold st2.
    rewrite F1, F2, F3. unfold MAX_STEPS_PER_FRAME. repeat split; lia. }
  destruct (scheduler_step_conservation nows initialState
              eq_refl Hs0 eq_refl Hm Hn) as (E1 & _ & E3).
  assert (F : Js.floor (totalDelta nows initialState / 2) = 16%Z).
  { rewrite HD. apply Zfloor_eq. lra. }
  rewrite F in E1, E3.
  split; [split; [reflexivity|split; [exact Hs0|split;
            [reflexivity|split; [exact Hm|exact Hn]]]]|].
  split; [exact HD|]. split; [|exact E3].
  apply Nat2Z.inj. exact E1.
Defined.

(** C7 (counterexample).  From the initial state (playing, speed 1, zero
    accumulator) three frames at times 1000, 997 and 1000: the first has
    delta 0, the second goes 3 ms backwards, the third 3 ms forwards.  No
    frame reaches the overload clamp and the deltas sum to [D = 0], but two
    steps are executed: the backward frame runs no step and leaves 1 ms in
    the accumulator, the third frame then finds 4 ms. *)
Lemma scheduler_backwards_clock :
  let nows := [1000; 997; 1000] in
  isPlayingRef initialState = true /\
  timeScaleRef initialState = 1 /\
  residueTimeRef initialState = 0 /\
  noOverload nows initialState /\
  totalDelta nows initialState = 0 /\
  totalSteps nows initialState = 2%nat /\
  ~ (Z.abs (Z.of_nat (totalSteps nows initialState)
            - Js.floor (totalDelta nows initialState / 2)) <= 1)%Z.
Proof.
  intros nows.
  assert (Hs0 : timeScaleRef initialState = 1) by (cbn; lra).
  set (st1 := loop 1000 initialState).
  set (st2 := loop 997 st1).
  destruct (frame_eval 1000 initialState 0 0 eq_refl Hs0)
    as (E1 & F1 & R1 & Hp1 & Hs1 & Hl1 & _);
    [apply deltaTimeMs_first; reflexivity
    |cbn [initialState residueTimeRef]; lra
    |unfold MAX_STEPS_PER_FRAME; lia|].
  fold st1 in R1, Hp1, Hs1, Hl1.
  cbn [initialState residueTimeRef] in R1.
  assert (R1' : residueTimeRef st1 = 0) by lra.
  assert (Hd2 : deltaTimeMs 997 st1 = -3)
    by (rewrite deltaTimeMs_next; rewrite Hl1; lra).
  destruct (frame_eval 997 st1 (-2) (-3) Hp1 Hs1 Hd2)
    as (E2 & F2 & R2 & Hp2 & Hs2 & Hl2 & _);
    [rewrite R1'; lra|unfold MAX_STEPS_PER_FRAME; lia|].
  fold st2 in R2, Hp2, Hs2, Hl2.
  assert (R2' : residueTimeRef st2 = 1) by (rewrite R2, R1'; lra).
  assert (Hd3 : deltaTimeMs 1000 st2 = 3)
    by (rewrite deltaTimeMs_next; rewrite Hl2; lra).
  destruct (frame_eval 1000 st2 2 3 Hp2 Hs2 Hd3)
    as (E3 & F3 & _);
    [rewrite R2'; lra|unfold MAX_STEPS_PER_FRAME; lia|].
  assert (HD : totalDelta nows initialState = 0).
  { unfold nows. cbn [totalDelta]. fold st1. fold st2.
    rewrite (deltaTimeMs_first 1000 initialState eq_refl), Hd2, Hd3. lra. }
  assert (HN : totalSteps nows initialState = 2%nat).
  { unfold nows. cbn [totalSteps]. fold st1. fold st2.
    rewrite E1, E2, E3. reflexivity. }
  split; [reflexivity|]. split; [exact Hs0|]. split; [reflexivity|].
  split.
  { unfold nows. cbn [noOverload]. fold st1. fold st2.
    rewrite F1, F2, F3. unfold MAX_STEPS_PER_FRAME. repeat split; lia. }
  split; [exact HD|]. split; [exact HN|].
  rewrite HN, HD.
  replace (Js.floor (0 / 2)) with 0%Z
    by (symmetry; apply Zfloor_eq; lra).
  lia.
Qed.

End SchedulerClaims.

(** *** One instance, one step *)

Section StepFacts.
Import Physics App.

Lemma stepRK4_tNext (t : R) (y : StateVector) (dt : R) (p : SimulationParams) :
  tNext (stepRK4 t y dt p) = t + dt.
Proof. rewrite stepRK4_unfold. reflexivity. Qed.

(** The two events exclude each other: the phase cannot both wrap and pass
    [LV_Tmax] upwards in one step. *)
Lemma endDiastole_not_endSystole (phys : PhysicsRefState) :
  isEndDiastole phys = true -> isEndSystole phys = false.
Proof.
  unfold isEndDiastole, isEndSystole. intros Hd. cbv zeta.
  apply ltb_spec in Hd.
  destruct (Js.ltb (prevPhase phys) _) eqn:E1; [|reflexivity].
  destruct (Js.geb (currPhase phys) _) eqn:E2; [|reflexivity].
  apply ltb_spec in E1. apply geb_spec in E2. lra.
Qed.

(** The step of an instance at an end-diastole event. *)
Lemma stepInstance_endDiastole (uiInst : SimInstance) (phys : PhysicsRefState) :
  isEndDiastole phys = true ->
  let ap := commitEndDiastole uiInst.(params) phys.(activeParams) in
  let r := stepRK4 phys.(phys_t) (injectVolume uiInst phys.(phys_y))
             PHYSICS_DT ap in
  activeParams (stepInstance uiInst phys) = ap /\
  phys_y (stepInstance uiInst phys) = yNext r /\
  phys_t (stepInstance uiInst phys) = tNext r.
Proof.
  intros Hd. unfold stepInstance.
  rewrite Hd, (endDiastole_not_endSystole phys Hd).
  cbv beta iota zeta. cbn [activeParams phys_y phys_t].
  split; [reflexivity|]. split; reflexivity.
Qed.

(** The step of an instance when no event fires. *)
Lemma stepInstance_no_event (uiInst : SimInstance) (phys : PhysicsRefState) :
  isEndDiastole phys = false -> isEndSystole phys = false ->
  let r := stepRK4 phys.(phys_t) phys.(phys_y) PHYSICS_DT phys.(activeParams) in
  activeParams (stepInstance uiInst phys) = phys.(activeParams) /\
  phys_y (stepInstance uiInst phys) = yNext r /\
  phys_t (stepInstance uiInst phys) = tNext r.
Proof.
  intros Hd Hs. unfold stepInstance. rewrite Hd, Hs.
  cbv beta iota zeta. cbn [activeParams phys_y phys_t].
  split; [reflexivity|]. split; reflexivity.
Qed.

(** A step outside end-diastole integrates from the state as it is. *)
Lemma stepInstance_no_injection (uiInst : SimInstance) (phys : PhysicsRefState) :
  isEndDiastole phys = false ->
  exists ap,
    phys_y (stepInstance uiInst phys)
    = yNext (stepRK4 phys.(phys_t) phys.(phys_y) PHYSICS_DT ap).
Proof.
  intros Hd. unfold stepInstance. rewrite Hd.
  destruct (isEndSystole phys); cbv beta iota zeta; cbn [phys_y];
    eexists; reflexivity.
Qed.

(** Every step advances the time by [PHYSICS_DT] and pushes one output,
    stamped with the new time. *)
Lemma stepInstance_time_buffer (uiInst : SimInstance) (phys : PhysicsRefState) :
  phys_t (stepInstance uiInst phys) = phys.(phys_t) + PHYSICS_DT /\
  exists output,
    out_t output = phys.(phys_t) + PHYSICS_DT /\
    buffer (stepInstance uiInst phys) = pushOutput phys.(buffer) output.
Proof.
  unfold stepInstance.
  destruct (isEndDiastole phys), (isEndSystole phys);
    cbv beta iota zeta; cbn [phys_t buffer];
    (split; [apply stepRK4_tNext|]);
    (eexists; split; [|reflexivity]); cbn [out_t]; apply stepRK4_tNext.
Qed.

(** The remainder of a concrete non-negative dividend. *)
Lemma rem_eval (a b r : R) (k : Z) :
  0 <= a -> 0 < b -> a = b * IZR k + r -> 0 <= r < b -> Js.rem a b = r.
Proof.
  intros Ha Hb E Hr. unfold Js.rem.
  assert (Hq : a / b = IZR k + r / b) by (rewrite E; field; lra).
  assert (Hrb : 0 <= r / b < 1).
  { split; [apply div_nonneg; lra|].
    apply (Rmult_lt_reg_r b); [lra|].
    replace (r / b * b) with r by (field; lra). lra. }
  rewrite (trunc_eq (a / b) k).
  - lra.
  - intros _. lra.
  - intros Hneg. exfalso. assert (0 <= a / b) by (apply div_nonneg; lra). lra.
Qed.

Lemma physAtWrap_endDiastole : isEndDiastole physAtWrap = true.
Proof.
  unfold isEndDiastole, currPhase, prevPhase, phaseT.
  cbn [physAtWrap phys_t activeParams DEFAULT_PARAMS HR]. unfold PHYSICS_DT.
  replace (60000.0 / 60) with 1000 by lra.
  rewrite (rem_eval 1001 1000 1 1) by lra.
  rewrite (rem_eval (1001 - 2.0) 1000 999 0) by lra.
  apply ltb_true. lra.
Qed.

End StepFacts.

(** *** Steps, as seen by an instance *)

Section PassFacts.
Import Physics App.

(** A pass over the instances leaves the other physics states alone. *)
Lemma stepAll_lookup_other (insts : list SimInstance)
  (refs : gmap string PhysicsRefState) (k : string) :
  k ∉ (id <$> insts) -> stepAll insts refs !! k = refs !! k.
Proof.
  unfold stepAll. revert refs.
  induction insts as [|inst insts IH]; intros refs Hk; [reflexivity|].
  cbn [fold_left]. rewrite fmap_cons in Hk. apply not_elem_of_cons in Hk.
  destruct Hk as [Hne Hk]. rewrite IH by exact Hk.
  destruct (refs !! id inst); [|reflexivity].
  apply lookup_insert_ne. congruence.
Qed.

(** With distinct instance ids, a pass steps each instance once. *)
Lemma stepAll_lookup (insts : list SimInstance)
  (refs : gmap string PhysicsRefState) (uiInst : SimInstance)
  (phys : PhysicsRefState) :
  NoDup (id <$> insts) ->
  uiInst ∈ insts ->
  refs !! id uiInst = Some phys ->
  stepAll insts refs !! id uiInst = Some (stepInstance uiInst phys).
Proof.
  revert refs.
  induction insts as [|inst insts IH]; intros refs Hnd Hin Hk.
  { apply elem_of_nil in Hin. contradiction. }
  rewrite fmap_cons in Hnd. apply NoDup_cons in Hnd. destruct Hnd as [Hni Hnd].
  unfold stepAll. cbn [fold_left]. fold (stepAll insts).
  apply elem_of_cons in Hin. destruct Hin as [->|Hin].
  - rewrite Hk.
    rewrite (stepAll_lookup_other insts _ (id inst) Hni).
    apply lookup_insert_eq.
  - assert (Hne : id inst <> id uiInst).
    { intros E. apply Hni. rewrite E. apply list_elem_of_fmap.
      exists uiInst. split; [reflexivity|exact Hin]. }
    apply IH; [exact Hnd|exact Hin|].
    destruct (refs !! id inst); [|exact Hk].
    rewrite lookup_insert_ne by exact Hne. exact Hk.
Qed.

(** With distinct instance ids, the steps a frame executes advance the time
    of every instance by [PHYSICS_DT] each. *)
Lemma loop_instance_time (now : R) (st : AppState) (uiInst : SimInstance)
  (phys : PhysicsRefState) :
  NoDup (id <$> instanceRefs st) ->
  uiInst ∈ instanceRefs st ->
  physicsRefs st !! id uiInst = Some phys ->
  exists phys',
    physicsRefs (loop now st) !! id uiInst = Some phys' /\
    phys_t phys' = phys_t phys + INR (stepsExecuted now st) * PHYSICS_DT.
Proof.
  intros Hnd Hin Hk. rewrite loop_physicsRefs.
  induction (stepsExecuted now st) as [|n IH].
  - exists phys. split; [exact Hk|]. cbn [INR]. lra.
  - destruct IH as (phys' & Hk' & Ht).
    exists (stepInstance uiInst phys'). split.
    + cbn [Nat.iter nat_rect]. apply stepAll_lookup; assumption.
    + destruct (stepInstance_time_buffer uiInst phys') as [E _].
      rewrite E, Ht, S_INR. lra.
Qed.

End PassFacts.

Section CommitClaims.
Import Physics App.

(** C2 (as amended).  When the end-diastole event fires, the step leaves in
    [activeParams] the value of the live parameter record for [HR], the
    eleven resistances [Ras], [Rcs], [Rvs], [Ras_prox], [Rda], [Rap], [Rvp],
    [Rap_prox], [Rcp], [Rmv], [Rtv], the seven compliances and the
    [Ees]/[V0] pair of each chamber; the eight valve-leak resistances are not
    copied: they keep the value [activeParams] had. *)
Theorem endDiastole_commit (uiInst : SimInstance) (phys : PhysicsRefState) :
  isEndDiastole phys = true ->
  let p := uiInst.(params) in
  let ap := phys.(activeParams) in
  let ap' := activeParams (stepInstance uiInst phys) in
  HR ap' = HR p /\
  (Ras ap' = Ras p /\ Rcs ap' = Rcs p /\ Rvs ap' = Rvs p /\
   Ras_prox ap' = Ras_prox p /\ Rda ap' = Rda p /\
   Rap ap' = Rap p /\ Rvp ap' = Rvp p /\ Rap_prox ap' = Rap_prox p /\
   Rcp ap' = Rcp p /\ Rmv ap' = Rmv p /\ Rtv ap' = Rtv p) /\
  (Cas ap' = Cas p /\ Cvs ap' = Cvs p /\ Cas_prox ap' = Cas_prox p /\
   Cda ap' = Cda p /\ Cap ap' = Cap p /\ Cvp ap' = Cvp p /\
   Cap_prox ap' = Cap_prox p) /\
  (LV_Ees ap' = LV_Ees p /\ LV_V0 ap' = LV_V0 p /\
   RV_Ees ap' = RV_Ees p /\ RV_V0 ap' = RV_V0 p /\
   LA_Ees ap' = LA_Ees p /\ LA_V0 ap' = LA_V0 p /\
   RA_Ees ap' = RA_Ees p /\ RA_V0 ap' = RA_V0 p) /\
  (Ravr ap' = Ravr ap /\ Ravs ap' = Ravs ap /\
   Rmvr ap' = Rmvr ap /\ Rmvs ap' = Rmvs ap /\
   Rpvr ap' = Rpvr ap /\ Rpvs ap' = Rpvs ap /\
   Rtvr ap' = Rtvr ap /\ Rtvs ap' = Rtvs ap).
Proof.
  intros Hd p ap ap'.
  destruct (stepInstance_endDiastole uiInst phys Hd) as (E & _).
  unfold ap'. rewrite E. unfold commitEndDiastole. cbn. fold p. fold ap.
  repeat split.
Qed.

Lemma endDiastole_commit_witness :
  isEndDiastole physAtWrap = true /\
  HR (activeParams (stepInstance leakyHeart physAtWrap)) = 60 /\
  Ravr (activeParams (stepInstance leakyHeart physAtWrap)) = 100000.
Proof.
  split; [exact physAtWrap_endDiastole|].
  destruct (endDiastole_commit leakyHeart physAtWrap physAtWrap_endDiastole)
    as (H1 & _ & _ & _ & H5 & _).
  split; [exact H1|exact H5].
Defined.

(** C2 (counterexample).  The user has set [Ravr] to 50; the physics state
    still has the default 100000.  The end-diastole event fires, and after
    the step [activeParams] still has [Ravr = 100000]: the valve-leak
    resistance was not copied. *)
Lemma endDiastole_keeps_valve_leak :
  isEndDiastole physAtWrap = true /\
  Ravr leakyHeart.(params) = 50 /\
  Ravr (activeParams (stepInstance leakyHeart physAtWrap)) = 100000 /\
  Ravr (activeParams (stepInstance leakyHeart physAtWrap))
  <> Ravr leakyHeart.(params).
Proof.
  pose proof physAtWrap_endDiastole as Hd.
  destruct (stepInstance_endDiastole leakyHeart physAtWrap Hd) as (E & _).
  assert (E' : Ravr (activeParams (stepInstance leakyHeart physAtWrap))
               = 100000) by (rewrite E; reflexivity).
  split; [exact Hd|]. split; [reflexivity|]. split; [exact E'|].
  rewrite E'. cbn [leakyHeart params aorticLeakParams Ravr]. lra.
Qed.

End CommitClaims.

Section VolumeClaims.
Import Physics App.

Lemma volumeDelta_clamp (uiInst : SimInstance) (y : StateVector) :
  let diff := uiInst.(targetVolume) - getTotalVolume y in
  let delta := volumeDelta uiInst y in
  (diff <= -500 -> delta = -500) /\
  (-500 <= diff <= 500 -> delta = diff) /\
  (500 <= diff -> delta = 500).
Proof.
  intros diff delta. unfold delta, volumeDelta. cbv zeta. fold diff.
  unfold Js.max, Js.min, Rmax, Rmin.
  repeat split; intros H; destruct (Rle_dec 500 diff);
    repeat match goal with
           | |- context [Rle_dec ?a ?b] => destruct (Rle_dec a b)
           end; lra.
Qed.

(** C5.  At an end-diastole event the step computes
    [delta = clamp (targetVolume - currentTotalVolume, -500, 500)]; when
    [|delta| > 1.0] it adds [delta] to [y[0]] and leaves the other
    components as they are, otherwise it leaves the state as it is; the RK4
    step of that event then starts from this state.  A difference of 10000
    gives [delta = 500]. *)
Theorem endDiastole_volume_injection (uiInst : SimInstance) (phys : PhysicsRefState) :
  isEndDiastole phys = true ->
  let y := phys.(phys_y) in
  let diff := uiInst.(targetVolume) - getTotalVolume y in
  let delta := volumeDelta uiInst y in
  delta = Js.max (-500) (Js.min 500 diff) /\
  ((diff <= -500 -> delta = -500) /\
   (-500 <= diff <= 500 -> delta = diff) /\
   (500 <= diff -> delta = 500)) /\
  (Rabs delta > 1 ->
   forall y0 rest, y = y0 :: rest ->
                   injectVolume uiInst y = (y0 + delta) :: rest) /\
  (Rabs delta <= 1 -> injectVolume uiInst y = y) /\
  (exists ap,
      phys_y (stepInstance uiInst phys)
      = yNext (stepRK4 phys.(phys_t) (injectVolume uiInst y) PHYSICS_DT ap)) /\
  (diff = 10000 -> delta = 500).
Proof.
  intros Hd y diff delta.
  pose proof (volumeDelta_clamp uiInst y) as Hclamp. cbv zeta in Hclamp.
  fold diff delta in Hclamp.
  split.
  { unfold delta, volumeDelta. cbv zeta. fold diff.
    replace (-500) with (- 500) by lra. reflexivity. }
  split; [exact Hclamp|].
  split; [|split; [|split]].
  - intros Habs y0 rest Ey. unfold injectVolume. cbv zeta. fold delta.
    unfold Js.abs. rewrite gtb_true by lra. rewrite Ey. reflexivity.
  - intros Habs. unfold injectVolume. cbv zeta. fold delta.
    unfold Js.abs. rewrite gtb_false by lra. reflexivity.
  - destruct (stepInstance_endDiastole uiInst phys Hd) as (_ & E & _).
    eexists. exact E.
  - intros E. apply Hclamp. lra.
Qed.

Lemma endDiastole_volume_injection_witness :
  isEndDiastole physAtWrap = true /\
  volumeLoadedHeart.(targetVolume) - getTotalVolume physAtWrap.(phys_y)
  = 10000 /\
  volumeDelta volumeLoadedHeart physAtWrap.(phys_y) = 500.
Proof.
  assert (E : volumeLoadedHeart.(targetVolume)
              - getTotalVolume physAtWrap.(phys_y) = 10000).
  { cbn [volumeLoadedHeart targetVolume physAtWrap phys_y]. lra. }
  split; [exact physAtWrap_endDiastole|]. split; [exact E|].
  apply (endDiastole_volume_injection volumeLoadedHeart physAtWrap
           physAtWrap_endDiastole).
  exact E.
Defined.

End VolumeClaims.

(** *** The output buffer *)

Section BufferFacts.
Import Physics App Retention.

Lemma spaced_tail (a : SimulationOutput) (buf : list SimulationOutput) :
  spaced (a :: buf) -> spaced buf.
Proof. intros [_ H]. exact H. Qed.

(** Appending an entry one step after the newest keeps the spacing. *)
Lemma spaced_snoc (buf : list SimulationOutput) (o : SimulationOutput) :
  spaced buf ->
  (forall newest, last buf = Some newest ->
                  out_t o = out_t newest + PHYSICS_DT) ->
  spaced (buf ++ [o]).
Proof.
  induction buf as [|a buf IH]; intros Hs Hl; [cbn; auto|].
  destruct buf as [|b buf].
  - cbn. split; [|auto]. apply Hl. reflexivity.
  - destruct Hs as [Hab Hs]. cbn [app spaced]. split; [exact Hab|].
    apply IH; [exact Hs|].
    intros newest Hn. apply Hl. rewrite last_cons_cons. exact Hn.
Qed.

(** One push (and at most one shift) keeps the buffer spaced, puts the new
    entry last, and keeps the oldest entry within the horizon. *)
Lemma pushOutput_inv (buf : list SimulationOutput) (o : SimulationOutput) (t : R) :
  spaced buf ->
  (forall newest, last buf = Some newest -> out_t newest = t) ->
  retained buf ->
  out_t o = t + PHYSICS_DT ->
  spaced (pushOutput buf o)
  /\ last (pushOutput buf o) = Some o
  /\ retained (pushOutput buf o).
Proof.
  intros Hs Hl Hr Ho.
  assert (Hs1 : spaced (buf ++ [o])).
  { apply spaced_snoc; [exact Hs|].
    intros newest Hn. rewrite (Hl newest Hn). exact Ho. }
  unfold pushOutput. cbv zeta.
  destruct buf as [|a buf].
  - cbn [app]. rewrite ltb_false by lra.
    split; [exact Hs1|]. split; [reflexivity|].
    intros x n Hx Hn. cbn in Hx, Hn. injection Hx as <-. injection Hn as <-.
    lra.
  - cbn [app]. cbn [app] in Hs1.
    destruct (Js.ltb (out_t a) (out_t o - 21000)) eqn:Hcut.
    + (* the oldest entry is dropped *)
      split; [exact (spaced_tail _ _ Hs1)|].
      split; [apply last_snoc|].
      intros x n Hx Hn. rewrite last_snoc in Hn. injection Hn as <-.
      destruct buf as [|b buf].
      * cbn in Hx. injection Hx as <-. lra.
      * cbn in Hx. injection Hx as <-.
        destruct Hs as [Hab Hs].
        destruct (last (b :: buf)) as [l|] eqn:El.
        2:{ apply last_None in El. discriminate El. }
        assert (Hal : last (a :: b :: buf) = Some l)
          by (rewrite last_cons_cons; exact El).
        pose proof (Hl l Hal) as Hlt.
        pose proof (Hr a l eq_refl Hal) as Hret.
        unfold PHYSICS_DT in *. lra.
    + (* nothing is dropped *)
      split; [exact Hs1|].
      split; [rewrite app_comm_cons; apply last_snoc|].
      intros x n Hx Hn. cbn in Hx. injection Hx as <-.
      rewrite app_comm_cons, last_snoc in Hn. injection Hn as <-.
      unfold Js.ltb in Hcut.
      destruct (Rlt_dec (out_t a) (out_t o - 21000)); [discriminate|lra].
Qed.

(** A step keeps the invariant of the instance's buffer. *)
Lemma stepInstance_bufferInv (uiInst : SimInstance) (phys : PhysicsRefState) :
  bufferInv phys -> bufferInv (stepInstance uiInst phys).
Proof.
  intros (Hs & Hl & Hr).
  destruct (stepInstance_time_buffer uiInst phys) as (Et & o & Eo & Eb).
  destruct (pushOutput_inv (buffer phys) o (phys_t phys) Hs Hl Hr Eo)
    as (Hs' & Hl' & Hr').
  unfold bufferInv. rewrite Eb, Et.
  split; [exact Hs'|]. split; [|exact Hr'].
  intros newest Hn. rewrite Hl' in Hn. injection Hn as <-. exact Eo.
Qed.

(** In a spaced buffer the newest entry is one step later per entry. *)
Lemma spaced_span (buf : list SimulationOutput) (a n : SimulationOutput) :
  spaced (a :: buf) -> last (a :: buf) = Some n ->
  out_t n = out_t a + INR (length buf) * PHYSICS_DT.
Proof.
  revert a. induction buf as [|b buf IH]; intros a Hs Hl.
  - cbn in Hl. injection Hl as <-. cbn [length INR]. lra.
  - destruct Hs as [Hab Hs]. rewrite last_cons_cons in Hl.
    rewrite (IH b Hs Hl), Hab. cbn [length]. rewrite S_INR. lra.
Qed.

Lemma bufferInv_length (phys : PhysicsRefState) :
  bufferInv phys -> (Z.of_nat (length (buffer phys)) <= 10501)%Z.
Proof.
  intros (Hs & _ & Hr).
  destruct (buffer phys) as [|a buf] eqn:E; [cbn; lia|].
  destruct (last (a :: buf)) as [n|] eqn:El.
  2:{ apply last_None in El. discriminate El. }
  pose proof (spaced_span buf a n Hs El) as Hspan.
  pose proof (Hr a n eq_refl El) as Hret.
  unfold PHYSICS_DT in Hspan.
  assert (Hlen : (Z.of_nat (length buf) <= 10500)%Z).
  { apply le_IZR. rewrite <- INR_IZR_INZ. lra. }
  cbn [length]. lia.
Qed.

(** The length of the buffer after one push and at most one shift: one
    more entry, up to the 10501 entries that fit in the horizon. *)
Lemma pushOutput_length (buf : list SimulationOutput) (o : SimulationOutput) (t : R) :
  spaced buf ->
  (forall newest, last buf = Some newest -> out_t newest = t) ->
  out_t o = t + PHYSICS_DT ->
  (Z.of_nat (length buf) <= 10501)%Z ->
  Z.of_nat (length (pushOutput buf o))
  = Z.min (Z.of_nat (length buf) + 1) 10501.
Proof.
  intros Hs Hl Ho Hlen. unfold pushOutput. cbv zeta.
  destruct buf as [|a buf].
  - cbn [app]. rewrite ltb_false by lra. cbn [length]. lia.
  - cbn [app].
    destruct (last (a :: buf)) as [l|] eqn:El.
    2:{ apply last_None in El. discriminate El. }
    pose proof (spaced_span buf a l Hs El) as Hspan.
    pose proof (Hl l eq_refl) as Hlt.
    rewrite INR_IZR_INZ in Hspan. unfold PHYSICS_DT in Hspan, Ho.
    cbn [length] in Hlen.
    destruct (Js.ltb (out_t a) (out_t o - 21000)) eqn:Hcut.
    + apply ltb_spec in Hcut.
      assert (Hlb : (10499 < Z.of_nat (length buf))%Z)
        by (apply lt_IZR; lra).
      rewrite length_app. cbn [length]. lia.
    + assert (Hge : out_t o - 21000 <= out_t a).
      { unfold Js.ltb in Hcut.
        destruct (Rlt_dec (out_t a) (out_t o - 21000)); [discriminate|lra]. }
      assert (Hub : (Z.of_nat (length buf) <= 10499)%Z)
        by (apply le_IZR; lra).
      cbn [length]. rewrite length_app. cbn [length]. lia.
Qed.

Lemma stepInstance_buffer_length (uiInst : SimInstance) (phys : PhysicsRefState) :
  bufferInv phys ->
  Z.of_nat (length (buffer (stepInstance uiInst phys)))
  = Z.min (Z.of_nat (length (buffer phys)) + 1) 10501.
Proof.
  intros Hinv. pose proof (bufferInv_length phys Hinv) as Hlen.
  destruct Hinv as (Hs & Hl & _).
  destruct (stepInstance_time_buffer uiInst phys) as (_ & o & Eo & Eb).
  rewrite Eb. apply (pushOutput_length _ _ (phys_t phys)); assumption.
Qed.

Lemma bufferInv_fresh (t : R) (y : StateVector) (x : R) (ap : SimulationParams) :
  bufferInv {| phys_t := t; phys_y := y; buffer := []; lastRenderX := x;
               activeParams := ap |}.
Proof.
  unfold bufferInv. cbn [buffer]. split; [exact I|].
  split; [intros n Hn; discriminate Hn|intros a n Ha; discriminate Ha].
Qed.

End BufferFacts.

Section ReachableFacts.
Import Physics App Retention.

Lemma initPhysicsRefs_bufferInv (instances : list SimInstance)
  (refs : gmap string PhysicsRefState) :
  map_Forall (fun _ phys => bufferInv phys) refs ->
  map_Forall (fun _ phys => bufferInv phys) (initPhysicsRefs instances refs).
Proof.
  intros H. unfold initPhysicsRefs. cbv zeta.
  apply map_Forall_lookup. intros k phys Hk.
  apply map_lookup_filter_Some in Hk. destruct Hk as [Hk _].
  revert k phys Hk. apply map_Forall_lookup.
  clear -H. revert refs H.
  generalize instances at 1. intros insts.
  induction insts as [|inst insts IH]; intros refs H; [exact H|].
  cbn [fold_left]. apply IH.
  destruct (refs !! id inst) eqn:E; [exact H|].
  apply map_Forall_insert; [exact E|]. split; [|exact H].
  apply bufferInv_fresh.
Qed.

(** Every reachable physics state satisfies the buffer invariant. *)
Lemma reachable_bufferInv (refs : gmap string PhysicsRefState) :
  reachableRefs refs -> map_Forall (fun _ phys => bufferInv phys) refs.
Proof.
  induction 1 as [|instances refs _ IH|uiInst phys refs _ IH Hk].
  - apply map_Forall_empty.
  - apply initPhysicsRefs_bufferInv. exact IH.
  - apply map_Forall_lookup. intros k p Hp.
    destruct (decide (k = id uiInst)) as [->|Hne].
    + rewrite lookup_insert_eq in Hp. injection Hp as <-.
      apply stepInstance_bufferInv.
      exact (proj1 (map_Forall_lookup _ _) IH _ _ Hk).
    + rewrite lookup_insert_ne in Hp by congruence.
      exact (proj1 (map_Forall_lookup _ _) IH _ _ Hp).
Qed.

(** The loop stays within the reachable physics states. *)
Lemma stepAll_reachable (insts : list SimInstance)
  (refs : gmap string PhysicsRefState) :
  reachableRefs refs -> reachableRefs (stepAll insts refs).
Proof.
  unfold stepAll. revert refs.
  induction insts as [|inst insts IH]; intros refs H; [exact H|].
  cbn [fold_left]. apply IH.
  destruct (refs !! id inst) eqn:E; [|exact H].
  apply reach_step; assumption.
Qed.

Lemma loop_reachable (now : R) (st : AppState) :
  reachableRefs (physicsRefs st) -> reachableRefs (physicsRefs (loop now st)).
Proof.
  intros H. rewrite loop_physicsRefs.
  induction (stepsExecuted now st) as [|n IH]; [exact H|].
  cbn [Nat.iter nat_rect]. apply stepAll_reachable. exact IH.
Qed.

Lemma initialState_reachable : reachableRefs (physicsRefs initialState).
Proof. cbn [initialState physicsRefs]. apply reach_init, reach_empty. Qed.

Lemma initialState_heartA :
  physicsRefs initialState !! "1" = Some initialPhys.
Proof.
  cbn [initialState physicsRefs]. unfold initPhysicsRefs, initialInstances.
  cbv zeta. cbn [fold_left]. rewrite lookup_empty.
  apply map_lookup_filter_Some. split.
  - cbn [heartA id params]. rewrite lookup_insert_eq.
    unfold syncTime. rewrite map_fold_empty. reflexivity.
  - cbn. apply list_elem_of_singleton. reflexivity.
Qed.

(** Repeated steps of one instance. *)
Lemma iter_bufferInv (uiInst : SimInstance) (phys : PhysicsRefState) (n : nat) :
  bufferInv phys -> bufferInv (Nat.iter n (stepInstance uiInst) phys).
Proof.
  intros H. induction n as [|n IH]; [exact H|].
  rewrite Nat.iter_succ. apply stepInstance_bufferInv. exact IH.
Qed.

Lemma iter_buffer_length (uiInst : SimInstance) (phys : PhysicsRefState) (n : nat) :
  bufferInv phys ->
  Z.of_nat (length (buffer (Nat.iter n (stepInstance uiInst) phys)))
  = Z.min (Z.of_nat (length (buffer phys)) + Z.of_nat n) 10501.
Proof.
  intros H. pose proof (bufferInv_length phys H) as Hlen.
  induction n as [|n IH]; [change (Nat.iter 0 (stepInstance uiInst) phys) with phys; lia|].
  rewrite Nat.iter_succ.
  rewrite stepInstance_buffer_length by (apply iter_bufferInv; exact H).
  rewrite IH. lia.
Qed.

Lemma iter_time (uiInst : SimInstance) (phys : PhysicsRefState) (n : nat) :
  phys_t (Nat.iter n (stepInstance uiInst) phys)
  = phys_t phys + IZR (Z.of_nat n) * PHYSICS_DT.
Proof.
  induction n as [|n IH].
  - change (Nat.iter 0 (stepInstance uiInst) phys) with phys.
    change (Z.of_nat 0) with 0%Z. lra.
  - rewrite Nat.iter_succ.
    destruct (stepInstance_time_buffer uiInst
                (Nat.iter n (stepInstance uiInst) phys)) as [E _].
    rewrite E, IH. rewrite Nat2Z.inj_succ, succ_IZR. lra.
Qed.

Lemma reach_iter (uiInst : SimInstance) (phys : PhysicsRefState)
  (refs : gmap string PhysicsRefState) (n : nat) :
  reachableRefs refs -> refs !! id uiInst = Some phys ->
  reachableRefs (<[id uiInst := Nat.iter n (stepInstance uiInst) phys]> refs).
Proof.
  intros Hr Hk. induction n as [|n IH].
  - change (Nat.iter 0 (stepInstance uiInst) phys) with phys.
    rewrite insert_id by exact Hk. exact Hr.
  - rewrite Nat.iter_succ.
    rewrite <- (insert_insert_eq refs (id uiInst)
                  (stepInstance uiInst (Nat.iter n (stepInstance uiInst) phys))
                  (Nat.iter n (stepInstance uiInst) phys)).
    apply reach_step; [exact IH|]. apply lookup_insert_eq.
Qed.

(** The long run: reachable, 10502 steps later, with a full buffer. *)
Lemma longRunRefs_reachable : reachableRefs longRunRefs.
Proof.
  unfold longRunRefs, longRunPhys.
  apply (reach_iter heartA initialPhys).
  - exact initialState_reachable.
  - exact initialState_heartA.
Qed.

Lemma longRunRefs_lookup : longRunRefs !! "1" = Some longRunPhys.
Proof. unfold longRunRefs. apply lookup_insert_eq. Qed.

Lemma longRunPhys_length : Z.of_nat (length (buffer longRunPhys)) = 10501%Z.
Proof.
  unfold longRunPhys. rewrite iter_buffer_length by apply bufferInv_fresh.
  rewrite Z2Nat.id by lia. cbn [initialPhys buffer length]. lia.
Qed.

Lemma longRunPhys_time : phys_t longRunPhys = INITIAL_TIME + 21004.
Proof.
  unfold longRunPhys. rewrite iter_time. rewrite Z2Nat.id by lia.
  cbn [initialPhys phys_t]. unfold PHYSICS_DT. lra.
Qed.

End ReachableFacts.

Section BufferClaims.
Import Physics App Retention.

(** C8.  In every physics state the application can reach (from the empty
    map, by the instance manager and by steps of the loop), so after every
    step's append and trim, the oldest retained entry of the instance's
    buffer is within 21 000 ms of the newest; and one more step keeps it
    so. *)
Theorem buffer_retention (refs : gmap string PhysicsRefState)
  (k : string) (phys : PhysicsRefState) :
  reachableRefs refs ->
  refs !! k = Some phys ->
  retained phys.(buffer) /\
  forall uiInst, retained (buffer (stepInstance uiInst phys)).
Proof.
  intros Hreach Hk.
  pose proof (proj1 (map_Forall_lookup _ _) (reachable_bufferInv refs Hreach)
                _ _ Hk) as Hinv.
  split; [exact (proj2 (proj2 Hinv))|].
  intros uiInst. exact (proj2 (proj2 (stepInstance_bufferInv uiInst phys Hinv))).
Qed.

Lemma buffer_retention_witness :
  (reachableRefs longRunRefs /\ longRunRefs !! "1" = Some longRunPhys) /\
  (phys_t longRunPhys = INITIAL_TIME + 21004 /\
   Z.of_nat (length (buffer longRunPhys)) = 10501%Z) /\
  retained (buffer longRunPhys) /\
  forall uiInst, retained (buffer (stepInstance uiInst longRunPhys)).
Proof.
  split; [split; [exact longRunRefs_reachable|exact longRunRefs_lookup]|].
  split; [split; [exact longRunPhys_time|exact longRunPhys_length]|].
  exact (buffer_retention longRunRefs "1" longRunPhys
           longRunRefs_reachable longRunRefs_lookup).
Defined.

End BufferClaims.

(** ** Further properties of the physics *)

Section ValveFlowMore.
Import Physics.

(** X1.  Forward flow.  For a positive gradient, [R > 0] and [Rs >= 0] the
    valve flow [Q] is positive and satisfies the pressure-flow relation
    [Rs Q^2 + R Q = deltaP] (linear when [Rs = 0]). *)
Theorem valve_flow_forward_relation (deltaP R0 Rs Rr : R) :
  0 < deltaP -> 0 < R0 -> 0 <= Rs ->
  0 < valve_flow deltaP R0 Rs Rr /\
  Rs * valve_flow deltaP R0 Rs Rr * valve_flow deltaP R0 Rs Rr
  + R0 * valve_flow deltaP R0 Rs Rr = deltaP.
Proof.
  intros HP HR HRs. unfold valve_flow. rewrite gtb_true by lra.
  destruct (Req_dec_T Rs 0) as [E|Hne].
  - rewrite eqb_true by exact E. subst Rs.
    assert (Hq : 0 < deltaP / R0).
    { pose proof (Rinv_0_lt_compat R0 HR). unfold Rdiv. nra. }
    split; [exact Hq|]. field. lra.
  - rewrite eqb_false by exact Hne.
    replace 4.0 with 4 by lra. replace 2.0 with 2 by lra.
    set (s := sqrt (R0 * R0 + 4 * Rs * deltaP)).
    assert (Hd : 0 < R0 * R0 + 4 * Rs * deltaP) by nra.
    assert (Hs2 : s * s = R0 * R0 + 4 * Rs * deltaP)
      by (apply sqrt_sqrt; lra).
    assert (Hs0 : 0 <= s) by apply sqrt_pos.
    assert (HsR : R0 < s) by nra.
    assert (HRs' : 0 < Rs) by lra.
    split.
    + apply Rmult_lt_0_compat; [lra|]. apply Rinv_0_lt_compat. lra.
    + replace (Rs * ((- R0 + s) / (2 * Rs)) * ((- R0 + s) / (2 * Rs))
               + R0 * ((- R0 + s) / (2 * Rs)))
        with ((s * s - R0 * R0) / (4 * Rs)) by (field; lra).
      rewrite Hs2. field. lra.
Qed.

Lemma valve_flow_forward_relation_witness :
  (0 < 4 /\ 0 < 3 /\ 0 <= 1) /\ 0 < valve_flow 4 3 1 100000.
Proof.
  split; [lra|].
  apply (valve_flow_forward_relation 4 3 1 100000); lra.
Defined.

(** X2.  Reverse flow.  For a gradient [deltaP <= 0], [R > 0] and
    [Rr > 0] the valve flow is never positive; with a closed valve
    ([Rr >= 100000]) its magnitude is at most [|deltaP| / 100000]. *)
Theorem valve_flow_reverse_sign (deltaP R0 Rs Rr : R) :
  deltaP <= 0 -> 0 < R0 -> 0 < Rr ->
  valve_flow deltaP R0 Rs Rr <= 0 /\
  (Rr >= 100000 -> deltaP / 100000 <= valve_flow deltaP R0 Rs Rr).
Proof.
  intros HP HR HRr. unfold valve_flow. rewrite gtb_false by lra.
  destruct (Rge_dec Rr 100000) as [Hc|Hl].
  - rewrite geb_true by exact Hc.
    assert (Hi : 0 < / (R0 + Rr)) by (apply Rinv_0_lt_compat; lra).
    assert (Hi' : / (R0 + Rr) <= / 100000)
      by (apply Rinv_le_contravar; lra).
    unfold Rdiv. split; [nra|]. intros _. nra.
  - rewrite geb_false by lra. cbv zeta.
    replace 2.0 with 2 by lra.
    pose proof (sqrt_pos (R0 * R0 - 4.0 * Rr * deltaP)) as Hs.
    assert (Hi : 0 < / (2 * Rr)) by (apply Rinv_0_lt_compat; lra).
    split; [unfold Rdiv; nra|]. intros Hc. lra.
Qed.

Lemma valve_flow_reverse_sign_witness :
  (-5 <= 0 /\ 0 < 3 /\ 0 < 100000) /\ valve_flow (-5) 3 0 100000 <= 0.
Proof.
  split; [lra|].
  apply (valve_flow_reverse_sign (-5) 3 0 100000); lra.
Defined.

(** X3.  The leaking branch.  For [deltaP <= 0], [R > 0] and
    [0 < Rr < 100000] the valve flow [Q] is the root of
    [Rr Q^2 + R Q + deltaP = 0] with [Q <= - R / Rr]. *)
Theorem valve_flow_leaking_root (deltaP R0 Rs Rr : R) :
  deltaP <= 0 -> 0 < R0 -> 0 < Rr -> Rr < 100000 ->
  Rr * valve_flow deltaP R0 Rs Rr * valve_flow deltaP R0 Rs Rr
  + R0 * valve_flow deltaP R0 Rs Rr + deltaP = 0 /\
  valve_flow deltaP R0 Rs Rr <= - R0 / Rr.
Proof.
  intros HP HR HRr Hl. unfold valve_flow.
  rewrite gtb_false by lra. rewrite geb_false by lra. cbv zeta.
  replace 4.0 with 4 by lra. replace 2.0 with 2 by lra.
  set (s := sqrt (R0 * R0 - 4 * Rr * deltaP)).
  assert (Hd : 0 <= R0 * R0 - 4 * Rr * deltaP) by nra.
  assert (Hs2 : s * s = R0 * R0 - 4 * Rr * deltaP)
    by (apply sqrt_sqrt; lra).
  assert (Hs0 : 0 <= s) by apply sqrt_pos.
  assert (HsR : R0 <= s) by nra.
  split.
  - replace (Rr * ((- R0 - s) / (2 * Rr)) * ((- R0 - s) / (2 * Rr))
             + R0 * ((- R0 - s) / (2 * Rr)) + deltaP)
      with ((s * s - R0 * R0 + 4 * Rr * deltaP) / (4 * Rr)) by (field; lra).
    rewrite Hs2. field. lra.
  - replace (- R0 / Rr) with ((- R0 - R0) / (2 * Rr)) by (field; lra).
    assert (Hi : 0 < / (2 * Rr)) by (apply Rinv_0_lt_compat; lra).
    unfold Rdiv. nra.
Qed.

Lemma valve_flow_leaking_root_witness :
  (-4 <= 0 /\ 0 < 3 /\ 0 < 1 /\ 1 < 100000) /\
  valve_flow (-4) 3 0 1 <= - 3 / 1.
Proof.
  split; [lra|].
  apply (valve_flow_leaking_root (-4) 3 0 1); lra.
Defined.

End ValveFlowMore.

Section ActivationMore.
Import Physics Activation.

(** X4.  At the unstressed volume [V = V0] the chamber pressure is zero at
    every time (for [Tmax], [tau], [HR] positive): the passive and the
    active pressure both vanish there. *)
Theorem P_ch_at_V0 (t Ees V0 alpha beta Tmax tau AV_delay HR : R) :
  0 < Tmax -> 0 < tau -> 0 < HR ->
  P_ch V0 t Ees V0 alpha beta Tmax tau AV_delay HR = 0.
Proof.
  intros _ _ _. unfold P_ch. cbv zeta.
  replace (V0 - V0) with 0 by ring.
  rewrite !Rmult_0_r, exp_0. lra.
Qed.

Lemma P_ch_at_V0_witness :
  (0 < 300 /\ 0 < 25 /\ 0 < 60) /\
  P_ch 5 1000 2.21 5 0.029 0.34 300 25 160 60 = 0.
Proof.
  split; [lra|].
  apply (P_ch_at_V0 1000 2.21 5 0.029 0.34 300 25 160 60); lra.
Defined.

Lemma rem_decomp (a b : R) : a = b * IZR (Js.trunc (a / b)) + Js.rem a b.
Proof. unfold Js.rem. ring. Qed.

Lemma rem_add_period (a b : R) :
  0 <= a -> 0 < b -> Js.rem (a + b) b = Js.rem a b.
Proof.
  intros Ha Hb.
  apply (rem_eval (a + b) b (Js.rem a b) (Js.trunc (a / b) + 1)).
  - lra.
  - exact Hb.
  - rewrite plus_IZR. pose proof (rem_decomp a b). lra.
  - apply rem_nonneg; assumption.
Qed.

(** X5.  From time 0 on the activation is periodic with period
    [T = 60000 / HR]: [e (t + n T) = e t] for [t >= 0] (and [Tmax], [tau],
    [HR] positive). *)
Theorem e_func_periodic (t Tmax tau HR : R) (n : nat) :
  0 <= t -> 0 < Tmax -> 0 < tau -> 0 < HR ->
  e_func (t + INR n * (60000.0 / HR)) Tmax tau HR = e_func t Tmax tau HR.
Proof.
  intros Ht _ _ HHR. pose proof (period_pos HR HHR) as HT.
  induction n as [|n IH].
  - f_equal. cbn [INR]. lra.
  - rewrite <- IH. rewrite !e_func_phase. f_equal.
    rewrite S_INR.
    replace (t + (INR n + 1) * (60000.0 / HR))
      with (t + INR n * (60000.0 / HR) + 60000.0 / HR) by ring.
    apply rem_add_period; [|exact HT].
    pose proof (pos_INR n). nra.
Qed.

Lemma e_func_periodic_witness :
  (0 <= 100 /\ 0 < 300 /\ 0 < 25 /\ 0 < 60) /\
  e_func (100 + INR 3 * (60000.0 / 60)) 300 25 60 = e_func 100 300 25 60.
Proof.
  split; [lra|].
  apply (e_func_periodic 100 300 25 60 3); lra.
Defined.

(** X6.  When the period is at least [1.5 Tmax] (and [Tmax], [tau], [HR]
    are positive) the activation stays in [(0, 1]] at every time. *)
Theorem e_func_range (t Tmax tau HR : R) :
  0 < Tmax -> 0 < tau -> 0 < HR -> 1.5 * Tmax <= 60000.0 / HR ->
  0 < e_func t Tmax tau HR <= 1.
Proof.
  intros HTmax Htau HHR Hper.
  rewrite e_func_phase. set (T := 60000.0 / HR) in *.
  set (ph := Js.rem t T). unfold e_phase.
  assert (Hitau : 0 < / tau) by (apply Rinv_0_lt_compat; exact Htau).
  destruct (Rlt_dec ph Tmax) as [H1|H1].
  - rewrite ltb_true by exact H1. unfold e_rising. cbv zeta.
    set (x := - (T - 1.5 * Tmax) / tau).
    assert (Hx : x <= 0) by (unfold x, Rdiv; nra).
    assert (He : 0 < exp x <= 1).
    { split; [apply exp_pos|].
      destruct Hx as [Hx|Hx]; [|rewrite Hx, exp_0; lra].
      left. rewrite <- exp_0. apply exp_increasing. exact Hx. }
    pose proof (COS_bound (PI * ph / Tmax)) as [Hc1 Hc2].
    split; nra.
  - rewrite ltb_false by lra.
    destruct (Rlt_dec ph (9.0 * Tmax / 8.0)) as [H2|H2].
    + rewrite ltb_true by exact H2. unfold e_falling.
      pose proof (COS_bound (2.0 * PI * ph / Tmax)) as [Hc1 Hc2].
      split; [|lra].
      assert (0 < cos (2.0 * PI * ph / Tmax)); [|lra].
      replace (2.0 * PI * ph / Tmax)
        with (2 * PI * (ph - Tmax) / Tmax + 2 * INR 1 * PI)
        by (cbn [INR]; js_lit; field; lra).
      rewrite cos_period.
      pose proof PI_RGT_0 as Hpi.
      assert (Hfrac : 0 <= (ph - Tmax) / Tmax < 1 / 8).
      { split; [apply div_nonneg; lra|].
        apply (Rmult_lt_reg_r Tmax); [lra|].
        replace ((ph - Tmax) / Tmax * Tmax) with (ph - Tmax) by (field; lra).
        lra. }
      replace (2 * PI * (ph - Tmax) / Tmax)
        with (2 * PI * ((ph - Tmax) / Tmax)) by (field; lra).
      apply cos_gt_0; nra.
    + rewrite ltb_false by lra. unfold e_tail.
      set (x := - (ph - 9.0 * Tmax / 8.0) / tau).
      assert (Hx : x <= 0) by (unfold x, Rdiv; nra).
      assert (He : 0 < exp x <= 1).
      { split; [apply exp_pos|].
        destruct Hx as [Hx|Hx]; [|rewrite Hx, exp_0; lra].
        left. rewrite <- exp_0. apply exp_increasing. exact Hx. }
      pose proof sqrt2_sq. pose proof sqrt2_pos.
      replace (sqrt 2.0) with (sqrt 2) by (f_equal; lra).
      assert (Hs : sqrt 2 < 2) by nra.
      split; nra.
Qed.

Lemma e_func_range_witness :
  (0 < 300 /\ 0 < 25 /\ 0 < 60 /\ 1.5 * 300 <= 60000.0 / 60) /\
  0 < e_func (-100) 300 25 60 <= 1.
Proof.
  split; [lra|].
  apply (e_func_range (-100) 300 25 60); lra.
Defined.

End ActivationMore.

(** ** Further properties of one step *)

Section StepMore.
Import Physics App.

Lemma total_cons (a : R) (l : list R) :
  getTotalVolume (a :: l) = a + getTotalVolume l.
Proof.
  unfold getTotalVolume. cbn [fold_left]. rewrite Rplus_0_l.
  assert (G : forall (l : list R) (x y : R),
             fold_left (fun acc val => acc + val) l (x + y)
             = x + fold_left (fun acc val => acc + val) l y).
  { clear. induction l as [|b l IH]; intros x y; [reflexivity|].
    cbn [fold_left]. rewrite Rplus_assoc. apply IH. }
  rewrite <- (G l a 0). f_equal. lra.
Qed.

Lemma stepRK4_total (t : R) (y : StateVector) (dt : R) (p : SimulationParams) :
  length y = 12%nat ->
  getTotalVolume (yNext (stepRK4 t y dt p)) = getTotalVolume y.
Proof.
  intros Hy. rewrite stepRK4_unfold. cbn [yNext].
  rewrite total_combine by (assumption || apply rhs_length).
  rewrite !rhs_sum_zero. lra.
Qed.

Lemma stepRK4_length (t : R) (y : StateVector) (dt : R) (p : SimulationParams) :
  length (yNext (stepRK4 t y dt p)) = length y.
Proof. rewrite stepRK4_unfold. cbn [yNext]. apply length_imap. Qed.

Lemma rhs_reservoir (t : R) (y : StateVector) (p : SimulationParams) :
  Js.get (rhs t y p).1 11 = 0.
Proof.
  destruct (rhs_dy_form t y p)
    as (? & ? & ? & ? & ? & ? & ? & ? & ? & ? & ? & ->).
  reflexivity.
Qed.

Lemma combine_reservoir (y k1 k2 k3 k4 : list R) (dt : R) :
  length y = 12%nat ->
  Js.get k1 11 = 0 -> Js.get k2 11 = 0 ->
  Js.get k3 11 = 0 -> Js.get k4 11 = 0 ->
  Js.get
    (imap (fun i val =>
             val + dt * (Js.get k1 i + 2 * Js.get k2 i
                         + 2 * Js.get k3 i + Js.get k4 i) / 6.0) y) 11
  = Js.get y 11.
Proof.
  intros Hy H1 H2 H3 H4. list12 y Hy.
  cbv [imap compose]. rewrite H1, H2, H3, H4.
  cbv [Js.get nth]. lra.
Qed.

Lemma stepRK4_reservoir (t : R) (y : StateVector) (dt : R) (p : SimulationParams) :
  length y = 12%nat ->
  Js.get (yNext (stepRK4 t y dt p)) 11 = Js.get y 11.
Proof.
  intros Hy. rewrite stepRK4_unfold. cbn [yNext].
  apply combine_reservoir; [exact Hy|apply rhs_reservoir..].
Qed.

Lemma injectVolume_length (uiInst : SimInstance) (y : StateVector) :
  y <> [] -> length (injectVolume uiInst y) = length y.
Proof.
  intros Hy. unfold injectVolume. cbv zeta.
  destruct (Js.gtb _ _); [|reflexivity].
  destruct y as [|y0 rest]; [contradiction|]. reflexivity.
Qed.

Lemma length12_nonempty (y : StateVector) : length y = 12%nat -> y <> [].
Proof. intros Hy E. rewrite E in Hy. discriminate Hy. Qed.

Lemma injectVolume_total (uiInst : SimInstance) (y : StateVector) :
  y <> [] ->
  getTotalVolume (injectVolume uiInst y)
  = getTotalVolume y
    + (if Js.gtb (Js.abs (volumeDelta uiInst y)) 1.0
       then volumeDelta uiInst y else 0).
Proof.
  intros Hy. unfold injectVolume. cbv zeta.
  destruct (Js.gtb _ _); [|lra].
  destruct y as [|y0 rest]; [contradiction|].
  cbn [Js.set0 Js.get nth]. rewrite !total_cons. lra.
Qed.

(** The state a step integrates from. *)
Lemma stepInstance_y_cases (uiInst : SimInstance) (phys : PhysicsRefState) :
  exists ap,
    phys_y (stepInstance uiInst phys)
    = yNext (stepRK4 phys.(phys_t)
               (if isEndDiastole phys
                then injectVolume uiInst phys.(phys_y) else phys.(phys_y))
               PHYSICS_DT ap).
Proof.
  unfold stepInstance.
  destruct (isEndDiastole phys), (isEndSystole phys);
    cbv beta iota zeta; cbn [phys_y]; eexists; reflexivity.
Qed.

Lemma endSystole_not_endDiastole (phys : PhysicsRefState) :
  isEndSystole phys = true -> isEndDiastole phys = false.
Proof.
  intros Hs. destruct (isEndDiastole phys) eqn:Hd; [|reflexivity].
  rewrite (endDiastole_not_endSystole phys Hd) in Hs. discriminate Hs.
Qed.

End StepMore.

Section StepExtras.
Import Physics App.

Lemma physAtSystole_endSystole : isEndSystole physAtSystole = true.
Proof.
  unfold isEndSystole, currPhase, prevPhase, phaseT.
  cbn [physAtSystole phys_t activeParams DEFAULT_PARAMS HR LV_Tmax].
  unfold PHYSICS_DT. cbv zeta.
  replace (60000.0 / 60) with 1000 by lra.
  rewrite (rem_eval 1300 1000 300 1) by lra.
  rewrite (rem_eval (1300 - 2.0) 1000 298 1) by lra.
  rewrite ltb_true, geb_true by lra. reflexivity.
Qed.

Lemma physMidBeat_no_event :
  isEndDiastole physMidBeat = false /\ isEndSystole physMidBeat = false.
Proof.
  unfold isEndDiastole, isEndSystole, currPhase, prevPhase, phaseT.
  cbn [physMidBeat phys_t activeParams DEFAULT_PARAMS HR LV_Tmax].
  unfold PHYSICS_DT. cbv zeta.
  replace (60000.0 / 60) with 1000 by lra.
  rewrite (rem_eval 1100 1000 100 1) by lra.
  rewrite (rem_eval (1100 - 2.0) 1000 98 1) by lra.
  rewrite ltb_false by lra. rewrite ltb_true, geb_false by lra.
  split; reflexivity.
Qed.

(** X7.  The two phase events never fire in the same step: the phase
    cannot wrap and pass the active [LV_Tmax] upwards at once. *)
Theorem phase_events_exclusive (phys : PhysicsRefState) :
  isEndDiastole phys && isEndSystole phys = false.
Proof.
  destruct (isEndDiastole phys) eqn:Hd; [|reflexivity].
  cbn [andb]. apply endDiastole_not_endSystole. exact Hd.
Qed.

(** X8.  When the end-systole event fires, the step copies from the live
    parameters into [activeParams]: [alpha], [beta] and [tau] of the four
    chambers and [Tmax] of the two ventricles.  The atrial [Tmax], the four
    [AV_delay] and [HR] are not copied. *)
Theorem endSystole_commit (uiInst : SimInstance) (phys : PhysicsRefState) :
  isEndSystole phys = true ->
  let p := uiInst.(params) in
  let ap := phys.(activeParams) in
  let ap' := activeParams (stepInstance uiInst phys) in
  (LV_alpha ap' = LV_alpha p /\ LV_beta ap' = LV_beta p /\
   LV_tau ap' = LV_tau p /\ LV_Tmax ap' = LV_Tmax p) /\
  (RV_alpha ap' = RV_alpha p /\ RV_beta ap' = RV_beta p /\
   RV_tau ap' = RV_tau p /\ RV_Tmax ap' = RV_Tmax p) /\
  (LA_alpha ap' = LA_alpha p /\ LA_beta ap' = LA_beta p /\
   LA_tau ap' = LA_tau p) /\
  (RA_alpha ap' = RA_alpha p /\ RA_beta ap' = RA_beta p /\
   RA_tau ap' = RA_tau p) /\
  (LA_Tmax ap' = LA_Tmax ap /\ RA_Tmax ap' = RA_Tmax ap /\
   LV_AV_delay ap' = LV_AV_delay ap /\ LA_AV_delay ap' = LA_AV_delay ap /\
   RV_AV_delay ap' = RV_AV_delay ap /\ RA_AV_delay ap' = RA_AV_delay ap /\
   HR ap' = HR ap).
Proof.
  intros Hs p ap ap'.
  assert (E : ap' = commitEndSystole p ap).
  { unfold ap', stepInstance.
    rewrite Hs, (endSystole_not_endDiastole phys Hs).
    cbv beta iota zeta. reflexivity. }
  rewrite E. unfold commitEndSystole. cbn. repeat split.
Qed.

Lemma endSystole_commit_witness :
  isEndSystole physAtSystole = true /\
  LV_Tmax (activeParams (stepInstance heartA physAtSystole)) = 300.
Proof.
  split; [exact physAtSystole_endSystole|].
  destruct (endSystole_commit heartA physAtSystole physAtSystole_endSystole)
    as ((_ & _ & _ & H) & _).
  exact H.
Defined.

(** X9.  Commit isolation.  In a step where neither event fires, the live
    parameters and the target volume are not read: the step gives the same
    physics state for any two instances, and [activeParams] stays as it
    was. *)
Theorem no_event_isolation (u1 u2 : SimInstance) (phys : PhysicsRefState) :
  isEndDiastole phys = false -> isEndSystole phys = false ->
  stepInstance u1 phys = stepInstance u2 phys /\
  activeParams (stepInstance u1 phys) = activeParams phys.
Proof.
  intros Hd Hs. unfold stepInstance. rewrite Hd, Hs.
  cbv beta iota zeta. split; reflexivity.
Qed.

Lemma no_event_isolation_witness :
  (isEndDiastole physMidBeat = false /\ isEndSystole physMidBeat = false) /\
  stepInstance heartA physMidBeat = stepInstance leakyHeart physMidBeat.
Proof.
  split; [exact physMidBeat_no_event|].
  apply (no_event_isolation heartA leakyHeart physMidBeat);
    apply physMidBeat_no_event.
Defined.

(** X10.  A step outside end-diastole keeps the total volume of a
    12-element state. *)
Theorem step_conserves_volume (uiInst : SimInstance) (phys : PhysicsRefState) :
  isEndDiastole phys = false ->
  length phys.(phys_y) = 12%nat ->
  getTotalVolume (phys_y (stepInstance uiInst phys))
  = getTotalVolume phys.(phys_y).
Proof.
  intros Hd Hy.
  destruct (stepInstance_y_cases uiInst phys) as [ap E].
  rewrite Hd in E. rewrite E. apply stepRK4_total. exact Hy.
Qed.

Lemma step_conserves_volume_witness :
  (isEndDiastole physMidBeat = false /\
   length physMidBeat.(phys_y) = 12%nat) /\
  getTotalVolume (phys_y (stepInstance volumeLoadedHeart physMidBeat))
  = getTotalVolume physMidBeat.(phys_y).
Proof.
  split; [split; [apply physMidBeat_no_event|reflexivity]|].
  apply (step_conserves_volume volumeLoadedHeart physMidBeat);
    [apply physMidBeat_no_event|reflexivity].
Defined.

Lemma abs_le_bounds (x a : R) : Rabs x <= a -> - a <= x <= a.
Proof. unfold Rabs. destruct (Rcase_abs x); lra. Qed.

(** X11.  Volume control.  After the step of an end-diastole event on a
    12-element state, with [diff = targetVolume - total volume] before the
    step: the total volume is unchanged if [|diff| <= 1], equals the target
    if [1 < |diff| <= 500], and has moved by 500 towards the target
    otherwise. *)
Theorem endDiastole_volume_control (uiInst : SimInstance) (phys : PhysicsRefState) :
  isEndDiastole phys = true ->
  length phys.(phys_y) = 12%nat ->
  let total := getTotalVolume phys.(phys_y) in
  let total' := getTotalVolume (phys_y (stepInstance uiInst phys)) in
  let diff := uiInst.(targetVolume) - total in
  (Rabs diff <= 1 -> total' = total) /\
  (1 < Rabs diff <= 500 -> total' = uiInst.(targetVolume)) /\
  (500 < diff -> total' = total + 500) /\
  (diff < -500 -> total' = total - 500).
Proof.
  intros Hd Hy total total' diff.
  destruct (stepInstance_y_cases uiInst phys) as [ap E].
  rewrite Hd in E.
  assert (Ht : total'
               = total + (if Js.gtb (Js.abs (volumeDelta uiInst phys.(phys_y))) 1.0
                          then volumeDelta uiInst phys.(phys_y) else 0)).
  { unfold total'. rewrite E, stepRK4_total
      by (rewrite injectVolume_length;
          [exact Hy|apply length12_nonempty; exact Hy]).
    apply injectVolume_total. apply length12_nonempty. exact Hy. }
  pose proof (volumeDelta_clamp uiInst phys.(phys_y)) as (Hlo & Hmid & Hhi).
  cbv zeta in Hlo, Hmid, Hhi. fold total in Hlo, Hmid, Hhi.
  fold diff in Hlo, Hmid, Hhi.
  unfold Js.abs in Ht.
  repeat split; intros H.
  - assert (Hr : -1 <= diff <= 1) by (apply abs_le_bounds; exact H).
    rewrite Hmid in Ht by lra. rewrite gtb_false in Ht by lra. lra.
  - destruct H as [H1 H2].
    assert (Hr : -500 <= diff <= 500) by (apply abs_le_bounds; exact H2).
    rewrite Hmid in Ht by lra. rewrite gtb_true in Ht by lra.
    unfold diff in Ht. lra.
  - rewrite Hhi in Ht by lra.
    rewrite gtb_true in Ht by (rewrite Rabs_pos_eq; lra). lra.
  - rewrite Hlo in Ht by lra.
    rewrite gtb_true in Ht by (rewrite Rabs_left; lra). lra.
Qed.

Lemma endDiastole_volume_control_witness :
  (isEndDiastole physAtWrap = true /\ length physAtWrap.(phys_y) = 12%nat) /\
  getTotalVolume (phys_y (stepInstance volumeLoadedHeart physAtWrap))
  = getTotalVolume physAtWrap.(phys_y) + 500.
Proof.
  split; [split; [exact physAtWrap_endDiastole|reflexivity]|].
  apply (endDiastole_volume_control volumeLoadedHeart physAtWrap
           physAtWrap_endDiastole eq_refl).
  cbn [volumeLoadedHeart targetVolume physAtWrap phys_y]. lra.
Defined.

(** X12.  A step keeps the length of a non-empty state vector, and on a
    12-element state it leaves the reservoir component [y[11]] as it was,
    whether or not an event fires.  (On an empty vector the volume
    injection of an end-diastole event creates element 0, so the length
    is not kept there.) *)
Theorem step_keeps_reservoir (uiInst : SimInstance) (phys : PhysicsRefState) :
  (phys.(phys_y) <> [] ->
   length (phys_y (stepInstance uiInst phys)) = length phys.(phys_y)) /\
  (length phys.(phys_y) = 12%nat ->
   Js.get (phys_y (stepInstance uiInst phys)) 11 = Js.get phys.(phys_y) 11).
Proof.
  destruct (stepInstance_y_cases uiInst phys) as [ap E]. rewrite E.
  split.
  - intros Hne. rewrite stepRK4_length.
    destruct (isEndDiastole phys);
      [apply injectVolume_length; exact Hne|reflexivity].
  - intros Hy. rewrite stepRK4_reservoir.
    + destruct (isEndDiastole phys); [|reflexivity].
      unfold injectVolume. cbv zeta.
      destruct (Js.gtb _ _); [|reflexivity].
      destruct phys.(phys_y) as [|y0 rest]; [discriminate Hy|].
      reflexivity.
    + destruct (isEndDiastole phys);
        [rewrite injectVolume_length;
         [|apply length12_nonempty]|]; exact Hy.
Qed.

Lemma step_keeps_reservoir_witness :
  (isEndDiastole physAtWrap = true /\
   physAtWrap.(phys_y) <> [] /\ length physAtWrap.(phys_y) = 12%nat) /\
  length (phys_y (stepInstance volumeLoadedHeart physAtWrap)) = 12%nat /\
  Js.get (phys_y (stepInstance volumeLoadedHeart physAtWrap)) 11 = 10.
Proof.
  assert (Hne : physAtWrap.(phys_y) <> []) by discriminate.
  split; [split; [exact physAtWrap_endDiastole|split; [exact Hne|reflexivity]]|].
  destruct (step_keeps_reservoir volumeLoadedHeart physAtWrap) as [Hl Hr].
  split; [exact (Hl Hne)|exact (Hr eq_refl)].
Defined.

End StepExtras.

(** ** Further properties of the scheduler *)

Section SchedulerExtras.
Import Physics App.

(** X13.  Whatever the state and the frame time, the physics states after
    a frame are those after [stepsExecuted] passes over the instances, and
    that number is at most [MAX_STEPS_PER_FRAME = 20]. *)
Theorem frame_steps_bounded (now : R) (st : AppState) :
  physicsRefs (loop now st)
  = Nat.iter (stepsExecuted now st) (stepAll (instanceRefs st))
      (physicsRefs st) /\
  (stepsExecuted now st <= 20)%nat.
Proof.
  split; [apply loop_physicsRefs|].
  unfold stepsExecuted. destruct (isPlayingRef st); cbn [negb]; [|lia].
  set (acc := residueTimeRef st + deltaTimeMs now st * timeScaleRef st).
  destruct (Z_gt_le_dec (Js.floor (acc / PHYSICS_DT)) MAX_STEPS_PER_FRAME)
    as [Hgt|Hle].
  - rewrite schedule_clamped by exact Hgt. cbn [fst].
    unfold iterations, MAX_STEPS_PER_FRAME. lia.
  - rewrite schedule_carry by exact Hle. cbn [fst]. unfold iterations.
    unfold MAX_STEPS_PER_FRAME in Hle. lia.
Qed.

(** X14.  A frame while paused executes no step, leaves the physics states
    as they are and empties the accumulator, but still records the frame
    time: the frame after it measures its delta from the paused frame, so
    the time spent paused is never stepped through. *)
Theorem paused_frame (now : R) (st : AppState) :
  isPlayingRef st = false ->
  stepsExecuted now st = 0%nat /\
  physicsRefs (loop now st) = physicsRefs st /\
  residueTimeRef (loop now st) = 0 /\
  (now <> 0 -> forall now', deltaTimeMs now' (loop now st) = now' - now).
Proof.
  intros Hp. destruct (loop_paused now st Hp) as (Hr & Hs & Hphys).
  split; [exact Hs|]. split; [exact Hphys|]. split; [exact Hr|].
  intros Hnow now'. rewrite deltaTimeMs_next.
  - destruct (loop_flags now st) as (_ & _ & _ & ->). reflexivity.
  - destruct (loop_flags now st) as (_ & _ & _ & ->). exact Hnow.
Qed.

Lemma paused_frame_witness :
  let st := {| timeScaleRef := 1; isPlayingRef := false;
               physicsRefs := physicsRefs initialState;
               instanceRefs := initialInstances;
               lastFrameTimeRef := 1000; residueTimeRef := 1.5 |} in
  isPlayingRef st = false /\
  stepsExecuted 9000 st = 0%nat /\ residueTimeRef (loop 9000 st) = 0.
Proof.
  intros st. split; [reflexivity|].
  destruct (paused_frame 9000 st eq_refl) as (H1 & _ & H3 & _).
  split; [exact H1|exact H3].
Defined.

(** X15.  While playing at a non-negative speed with a clock that does not
    go backwards, the accumulator never leaves [[0, 2)]: after every frame
    of a sequence it holds less than one step. *)
Theorem residue_below_one_step (nows : list R) (st : AppState) :
  isPlayingRef st = true ->
  0 <= timeScaleRef st ->
  0 <= residueTimeRef st < 2 ->
  monotoneClock nows st ->
  0 <= residueTimeRef (runFrames nows st) < 2.
Proof.
  revert st. induction nows as [|now nows IH]; intros st Hp Hs Hr Hm.
  { exact Hr. }
  cbn [runFrames fold_left]. fold (runFrames nows (loop now st)).
  destruct Hm as [Hd Hm].
  destruct (loop_flags now st) as (Hp' & Hs' & _ & _).
  apply IH.
  - rewrite Hp'. exact Hp.
  - rewrite Hs'. exact Hs.
  - apply loop_residue_range; [exact Hp|]. nra.
  - exact Hm.
Qed.

Lemma residue_below_one_step_witness :
  let nows := [1000; 1016; 1033] in
  (isPlayingRef initialState = true /\ 0 <= timeScaleRef initialState /\
   0 <= residueTimeRef initialState < 2 /\
   monotoneClock nows initialState) /\
  totalDelta nows initialState = 33 /\
  residueTimeRef (runFrames nows initialState) = 1 /\
  0 <= residueTimeRef (runFrames nows initialState) < 2.
Proof.
  intros nows.
  destruct threeFrames_eval as ((Hd1 & Hd2 & Hd3) & _ & (_ & _ & R3)).
  assert (Hm : monotoneClock nows initialState).
  { unfold nows. cbn [monotoneClock]. rewrite Hd1, Hd2, Hd3.
    repeat split; lra. }
  assert (Hs : 0 <= timeScaleRef initialState) by (cbn; lra).
  assert (Hr : 0 <= residueTimeRef initialState < 2) by (cbn; lra).
  split; [split; [reflexivity|split; [exact Hs|split; [exact Hr|exact Hm]]]|].
  split; [unfold nows; cbn [totalDelta]; rewrite Hd1, Hd2, Hd3; lra|].
  split; [unfold nows, runFrames; cbn [fold_left]; exact R3|].
  apply (residue_below_one_step nows initialState eq_refl Hs Hr Hm).
Defined.

(** X16.  With distinct instance ids, a frame advances the time of every
    instance that has a physics state by [PHYSICS_DT] for each step it
    executes. *)
Theorem frame_advances_instance_time (now : R) (st : AppState)
  (uiInst : SimInstance) (phys : PhysicsRefState) :
  NoDup (id <$> instanceRefs st) ->
  uiInst ∈ instanceRefs st ->
  physicsRefs st !! id uiInst = Some phys ->
  exists phys',
    physicsRefs (loop now st) !! id uiInst = Some phys' /\
    phys_t phys' = phys_t phys + INR (stepsExecuted now st) * PHYSICS_DT.
Proof. apply loop_instance_time. Qed.

Lemma twoHeartState_heartB :
  physicsRefs twoHeartState !! "2" = Some (freshPhys INITIAL_TIME heartB).
Proof.
  cbn [twoHeartState physicsRefs]. unfold initPhysicsRefs.
  cbv zeta. cbn [fold_left]. rewrite lookup_empty.
  cbn [heartA heartB id params].
  rewrite lookup_insert_ne by discriminate. rewrite lookup_empty.
  apply map_lookup_filter_Some. split.
  - rewrite lookup_insert_eq. unfold freshPhys. cbn [heartB params].
    rewrite insert_empty. unfold syncTime at 1.
    rewrite map_fold_singleton. cbn [phys_t].
    unfold syncTime. rewrite map_fold_empty.
    destruct (Js.gtb _ _); reflexivity.
  - cbn. apply list_elem_of_further, list_elem_of_here.
Qed.

Lemma frame_advances_instance_time_witness :
  (NoDup (id <$> instanceRefs twoHeartState) /\
   heartB ∈ instanceRefs twoHeartState /\
   physicsRefs twoHeartState !! id heartB
   = Some (freshPhys INITIAL_TIME heartB)) /\
  stepsExecuted 1016 twoHeartState = 8%nat /\
  exists phys',
    physicsRefs (loop 1016 twoHeartState) !! "2" = Some phys' /\
    phys_t phys' = INITIAL_TIME + 16.
Proof.
  assert (Hnd : NoDup (id <$> instanceRefs twoHeartState)).
  { cbn. apply NoDup_cons. split.
    - intros Hin. apply list_elem_of_singleton in Hin. discriminate Hin.
    - apply NoDup_singleton. }
  assert (Hin : heartB ∈ instanceRefs twoHeartState).
  { cbn. apply list_elem_of_further, list_elem_of_here. }
  assert (Hs : timeScaleRef twoHeartState = 1) by (cbn; lra).
  assert (Hd : deltaTimeMs 1016 twoHeartState = 16).
  { rewrite deltaTimeMs_next; cbn [twoHeartState lastFrameTimeRef]; lra. }
  destruct (frame_eval 1016 twoHeartState 8 16 eq_refl Hs Hd)
    as (E & _);
    [cbn [twoHeartState residueTimeRef]; lra
    |unfold MAX_STEPS_PER_FRAME; lia|].
  split; [split; [exact Hnd|split; [exact Hin|exact twoHeartState_heartB]]|].
  split; [exact E|].
  destruct (frame_advances_instance_time 1016 twoHeartState heartB
              (freshPhys INITIAL_TIME heartB) Hnd Hin twoHeartState_heartB)
    as (phys' & Hk & Ht).
  exists phys'. split; [exact Hk|].
  rewrite Ht, E. cbn [freshPhys phys_t]. unfold PHYSICS_DT.
  change (INR 8) with (INR (Z.to_nat 8)). rewrite INR_IZR_INZ.
  change (Z.of_nat (Z.to_nat 8)) with 8%Z. lra.
Defined.

End SchedulerExtras.

(** ** Further properties of the physics map *)

Section PhysicsMapFacts.
Import Physics App.

Lemma stepAll_dom (insts : list SimInstance)
  (refs : gmap string PhysicsRefState) :
  dom (stepAll insts refs) = dom refs.
Proof.
  unfold stepAll. revert refs.
  induction insts as [|inst insts IH]; intros refs; [reflexivity|].
  cbn [fold_left]. rewrite IH.
  destruct (refs !! id inst) eqn:E; [|reflexivity].
  apply dom_insert_lookup_L. rewrite E. eexists. reflexivity.
Qed.

(** [syncTime] is the latest of [INITIAL_TIME] and the times in the map. *)
Lemma syncTime_upper (refs : gmap string PhysicsRefState) :
  INITIAL_TIME <= syncTime refs /\
  forall k p, refs !! k = Some p -> phys_t p <= syncTime refs.
Proof.
  unfold syncTime.
  apply (map_fold_weak_ind
           (fun r (m : gmap string PhysicsRefState) =>
              INITIAL_TIME <= r /\
              forall k p, m !! k = Some p -> phys_t p <= r)).
  - split; [lra|]. intros k p Hk. rewrite lookup_empty in Hk. discriminate.
  - intros i x m r Hi [H1 H2].
    assert (Hr : r <= (if Js.gtb (phys_t x) r then phys_t x else r)
                 /\ phys_t x <= (if Js.gtb (phys_t x) r then phys_t x else r)).
    { unfold Js.gtb. destruct (Rgt_dec (phys_t x) r); lra. }
    destruct Hr as [Hr1 Hr2]. split; [lra|].
    intros k p Hk. destruct (decide (k = i)) as [->|Hne].
    + rewrite lookup_insert_eq in Hk. injection Hk as <-. exact Hr2.
    + rewrite lookup_insert_ne in Hk by congruence.
      specialize (H2 k p Hk). lra.
Qed.

Lemma initPhysicsRefs_lookup (instances : list SimInstance)
  (refs : gmap string PhysicsRefState) (k : string) (p : PhysicsRefState) :
  initPhysicsRefs instances refs !! k = Some p
  <-> createMissing instances refs !! k = Some p /\ k ∈ (id <$> instances).
Proof. unfold initPhysicsRefs. cbv zeta. apply map_lookup_filter_Some. Qed.

Lemma createMissing_keeps (instances : list SimInstance)
  (refs : gmap string PhysicsRefState) (k : string) (p : PhysicsRefState) :
  refs !! k = Some p -> createMissing instances refs !! k = Some p.
Proof.
  unfold createMissing. revert refs.
  induction instances as [|inst insts IH]; intros refs Hk; [exact Hk|].
  cbn [fold_left]. apply IH.
  destruct (refs !! id inst) eqn:E; [exact Hk|].
  rewrite lookup_insert_ne; [exact Hk|]. intros <-. congruence.
Qed.

Lemma createMissing_covers (instances : list SimInstance)
  (refs : gmap string PhysicsRefState) (inst : SimInstance) :
  inst ∈ instances -> is_Some (createMissing instances refs !! id inst).
Proof.
  revert refs.
  induction instances as [|i insts IH]; intros refs Hin.
  { apply elem_of_nil in Hin. contradiction. }
  apply elem_of_cons in Hin. unfold createMissing. cbn [fold_left].
  fold (createMissing insts).
  destruct Hin as [->|Hin]; [|apply IH; exact Hin].
  destruct (refs !! id i) as [p|] eqn:E.
  - exists p. apply createMissing_keeps. exact E.
  - eexists. apply createMissing_keeps. apply lookup_insert_eq.
Qed.

Lemma createMissing_origin (instances : list SimInstance)
  (refs : gmap string PhysicsRefState) (k : string) (p : PhysicsRefState) :
  createMissing instances refs !! k = Some p ->
  refs !! k = Some p \/
  exists inst tau,
    inst ∈ instances /\ id inst = k /\ p = freshPhys tau inst /\
    INITIAL_TIME <= tau /\
    forall k' p', refs !! k' = Some p' -> phys_t p' <= tau.
Proof.
  revert refs.
  induction instances as [|i insts IH]; intros refs Hk; [left; exact Hk|].
  unfold createMissing in Hk. cbn [fold_left] in Hk.
  fold (createMissing insts) in Hk.
  destruct (refs !! id i) as [q|] eqn:E.
  - destruct (IH refs Hk) as [H|(inst & tau & Hin & Hid & Hp & Ht & Hall)];
      [left; exact H|].
    right. exists inst, tau. split; [apply elem_of_cons; right; exact Hin|].
    repeat split; assumption.
  - destruct (IH _ Hk) as [H|(inst & tau & Hin & Hid & Hp & Ht & Hall)].
    + destruct (decide (k = id i)) as [->|Hne].
      * rewrite lookup_insert_eq in H. injection H as <-.
        right. exists i, (syncTime refs).
        split; [apply elem_of_cons; left; reflexivity|].
        split; [reflexivity|]. split; [reflexivity|].
        apply syncTime_upper.
      * rewrite lookup_insert_ne in H by congruence. left. exact H.
    + right. exists inst, tau.
      split; [apply elem_of_cons; right; exact Hin|].
      split; [exact Hid|]. split; [exact Hp|]. split; [exact Ht|].
      intros k' p' Hk'. apply (Hall k' p').
      rewrite lookup_insert_ne; [exact Hk'|]. intros <-. congruence.
Qed.

End PhysicsMapFacts.

Section PhysicsMapExtras.
Import Physics App Retention.

(** X17.  A frame neither creates nor deletes physics states: the map has
    the same keys after it; in particular an instance without a physics
    state is skipped and still has none. *)
Theorem loop_keeps_keys (now : R) (st : AppState) :
  dom (physicsRefs (loop now st)) = dom (physicsRefs st) /\
  forall uiInst,
    physicsRefs st !! id uiInst = None ->
    physicsRefs (loop now st) !! id uiInst = None.
Proof.
  assert (E : dom (physicsRefs (loop now st)) = dom (physicsRefs st)).
  { rewrite loop_physicsRefs.
    induction (stepsExecuted now st) as [|n IH]; [reflexivity|].
    cbn [Nat.iter nat_rect]. rewrite stepAll_dom. exact IH. }
  split; [exact E|].
  intros uiInst Hk. apply not_elem_of_dom. rewrite E.
  apply not_elem_of_dom. exact Hk.
Qed.

Lemma initPhysicsRefs_is_Some (instances : list SimInstance)
  (refs : gmap string PhysicsRefState) (k : string) :
  is_Some (initPhysicsRefs instances refs !! k) <-> k ∈ (id <$> instances).
Proof.
  split.
  - intros [p Hp]. apply initPhysicsRefs_lookup in Hp. apply Hp.
  - intros Hk. pose proof Hk as Hk'.
    apply list_elem_of_fmap in Hk'. destruct Hk' as (inst & -> & Hin).
    destruct (createMissing_covers instances refs inst Hin) as [p Hp].
    exists p. apply initPhysicsRefs_lookup. split; assumption.
Qed.

(** X18.  After [initPhysicsRefs] the physics map has a state for exactly
    the ids of the instances: one for every instance, none for any other
    key. *)
Theorem initPhysicsRefs_keys (instances : list SimInstance)
  (refs : gmap string PhysicsRefState) (k : string) :
  is_Some (initPhysicsRefs instances refs !! k) <-> k ∈ (id <$> instances).
Proof. apply initPhysicsRefs_is_Some. Qed.

Lemma initPhysicsRefs_keeps (instances : list SimInstance)
  (refs : gmap string PhysicsRefState) (k : string) (p : PhysicsRefState) :
  refs !! k = Some p -> k ∈ (id <$> instances) ->
  initPhysicsRefs instances refs !! k = Some p.
Proof.
  intros Hk Hin. apply initPhysicsRefs_lookup.
  split; [apply createMissing_keeps; exact Hk|exact Hin].
Qed.

(** X19.  [initPhysicsRefs] leaves the physics state of an instance that
    already has one as it is (time, state, buffer and active parameters are
    not reset), deletes the state of every key that is no instance id, and
    running it again with the same instances changes nothing. *)
Theorem initPhysicsRefs_stable (instances : list SimInstance)
  (refs : gmap string PhysicsRefState) :
  (forall k p, refs !! k = Some p -> k ∈ (id <$> instances) ->
               initPhysicsRefs instances refs !! k = Some p) /\
  (forall k, k ∉ (id <$> instances) ->
             initPhysicsRefs instances refs !! k = None) /\
  initPhysicsRefs instances (initPhysicsRefs instances refs)
  = initPhysicsRefs instances refs.
Proof.
  assert (Hdel : forall refs' k,
             k ∉ (id <$> instances) ->
             initPhysicsRefs instances refs' !! k = None).
  { intros refs' k Hk.
    destruct (initPhysicsRefs instances refs' !! k) as [p|] eqn:E;
      [|reflexivity].
    exfalso. apply Hk. apply (initPhysicsRefs_is_Some instances refs' k).
    exists p. exact E. }
  split; [intros k p; apply initPhysicsRefs_keeps|].
  split; [apply Hdel|].
  apply map_eq. intros k.
  destruct (decide (k ∈ (id <$> instances))) as [Hin|Hout].
  - destruct (proj2 (initPhysicsRefs_is_Some instances refs k) Hin) as [p Hp].
    rewrite Hp. apply initPhysicsRefs_keeps; assumption.
  - rewrite !Hdel by exact Hout. reflexivity.
Qed.

(** X20.  The state [initPhysicsRefs] creates for an instance id that had
    none: the canonical initial state vector, an empty buffer, the
    parameters of an instance with that id, and a start time that is at
    least [INITIAL_TIME] and at least the time of every physics state that
    existed before. *)
Theorem initPhysicsRefs_new_instance (instances : list SimInstance)
  (refs : gmap string PhysicsRefState) (k : string) :
  refs !! k = None -> k ∈ (id <$> instances) ->
  exists inst tau,
    inst ∈ instances /\ id inst = k /\
    initPhysicsRefs instances refs !! k
    = Some {| phys_t := tau; phys_y := INITIAL_STATE_VECTOR; buffer := [];
              lastRenderX := 0; activeParams := inst.(params) |} /\
    INITIAL_TIME <= tau /\
    forall k' p', refs !! k' = Some p' -> phys_t p' <= tau.
Proof.
  intros Hnone Hin.
  destruct (proj2 (initPhysicsRefs_is_Some instances refs k) Hin) as [p Hp].
  pose proof Hp as Hp'. apply initPhysicsRefs_lookup in Hp'.
  destruct Hp' as [Hc _].
  destruct (createMissing_origin instances refs k p Hc)
    as [H|(inst & tau & Hi & Hid & E & Ht & Hall)]; [congruence|].
  exists inst, tau. rewrite Hp, E. unfold freshPhys.
  repeat split; assumption.
Qed.

Lemma initPhysicsRefs_new_instance_witness :
  ((∅ : gmap string PhysicsRefState) !! "1" = None /\
   "1" ∈ (id <$> initialInstances)) /\
  exists inst tau,
    inst ∈ initialInstances /\ id inst = "1" /\
    initPhysicsRefs initialInstances ∅ !! "1"
    = Some {| phys_t := tau; phys_y := INITIAL_STATE_VECTOR; buffer := [];
              lastRenderX := 0; activeParams := inst.(params) |} /\
    INITIAL_TIME <= tau /\
    forall k' p', (∅ : gmap string PhysicsRefState) !! k' = Some p' ->
                  phys_t p' <= tau.
Proof.
  assert (H1 : (∅ : gmap string PhysicsRefState) !! "1" = None)
    by apply lookup_empty.
  assert (H2 : "1" ∈ (id <$> initialInstances)).
  { cbn. apply list_elem_of_singleton. reflexivity. }
  split; [split; assumption|].
  exact (initPhysicsRefs_new_instance initialInstances ∅ "1" H1 H2).
Defined.

End PhysicsMapExtras.

(** ** Further properties of the output buffer *)

Section BufferExtras.
Import Physics App Retention.

(** The pushed output is the newest entry of the buffer. *)
Lemma pushOutput_last (buf : list SimulationOutput) (o : SimulationOutput) :
  last (pushOutput buf o) = Some o.
Proof.
  unfold pushOutput. cbv zeta. destruct buf as [|a buf].
  - cbn [app]. rewrite ltb_false by lra. reflexivity.
  - cbn [app]. destruct (Js.ltb _ _).
    + apply last_snoc.
    + rewrite app_comm_cons. apply last_snoc.
Qed.

(** The output a step pushes records the state the step ends in. *)
Lemma stepInstance_output (uiInst : SimInstance) (phys : PhysicsRefState) :
  exists a,
    buffer (stepInstance uiInst phys)
    = pushOutput (buffer phys)
        {| out_t := phys_t (stepInstance uiInst phys);
           out_y := stateOf (phys_y (stepInstance uiInst phys));
           out_aux := a |}.
Proof.
  unfold stepInstance.
  destruct (isEndDiastole phys), (isEndSystole phys);
    cbv beta iota zeta; cbn [phys_t phys_y buffer];
    eexists; reflexivity.
Qed.

(** The newest entry of every reachable buffer is the current state. *)
Lemma reachable_newest (refs : gmap string PhysicsRefState) :
  reachableRefs refs ->
  map_Forall
    (fun _ phys =>
       forall newest, last (buffer phys) = Some newest ->
                      out_t newest = phys_t phys
                      /\ out_y newest = stateOf (phys_y phys))
    refs.
Proof.
  induction 1 as [|instances refs _ IH|uiInst phys refs _ IH Hk].
  - apply map_Forall_empty.
  - apply map_Forall_lookup. intros k p Hp.
    apply initPhysicsRefs_lookup in Hp. destruct Hp as [Hp _].
    destruct (createMissing_origin instances refs k p Hp)
      as [H|(inst & tau & _ & _ & -> & _)].
    + exact (proj1 (map_Forall_lookup _ _) IH _ _ H).
    + intros newest Hn. discriminate Hn.
  - apply map_Forall_lookup. intros k p Hp.
    destruct (decide (k = id uiInst)) as [->|Hne].
    + rewrite lookup_insert_eq in Hp. injection Hp as <-.
      destruct (stepInstance_output uiInst phys) as [a E].
      intros newest Hn. rewrite E, pushOutput_last in Hn.
      injection Hn as <-. split; reflexivity.
    + rewrite lookup_insert_ne in Hp by congruence.
      exact (proj1 (map_Forall_lookup _ _) IH _ _ Hp).
Qed.

(** X21.  The buffer of every reachable physics state holds at most 10501
    entries (21 000 ms of steps of 2 ms, both ends included). *)
Theorem buffer_length_bounded (refs : gmap string PhysicsRefState)
  (k : string) (phys : PhysicsRefState) :
  reachableRefs refs -> refs !! k = Some phys ->
  (Z.of_nat (length (buffer phys)) <= 10501)%Z.
Proof.
  intros Hreach Hk. apply bufferInv_length.
  exact (proj1 (map_Forall_lookup _ _) (reachable_bufferInv refs Hreach)
           _ _ Hk).
Qed.

Lemma buffer_length_bounded_witness :
  (reachableRefs longRunRefs /\ longRunRefs !! "1" = Some longRunPhys) /\
  Z.of_nat (length (buffer longRunPhys)) = 10501%Z /\
  (Z.of_nat (length (buffer longRunPhys)) <= 10501)%Z /\
  (Z.of_nat (length (buffer (stepInstance heartA longRunPhys))) <= 10501)%Z.
Proof.
  split; [split; [exact longRunRefs_reachable|exact longRunRefs_lookup]|].
  split; [exact longRunPhys_length|]. split.
  - exact (buffer_length_bounded longRunRefs "1" longRunPhys
             longRunRefs_reachable longRunRefs_lookup).
  - apply (buffer_length_bounded
             (<[id heartA := stepInstance heartA longRunPhys]> longRunRefs)
             "1" (stepInstance heartA longRunPhys)).
    + apply reach_step;
        [exact longRunRefs_reachable|exact longRunRefs_lookup].
    + apply lookup_insert_eq.
Defined.

(** X22.  In every reachable physics state the buffer is ordered in time,
    consecutive entries exactly one step (2 ms) apart, and its newest entry
    is the current state: it carries the state's time and the twelve
    components of its state vector. *)
Theorem buffer_newest_is_current (refs : gmap string PhysicsRefState)
  (k : string) (phys : PhysicsRefState) :
  reachableRefs refs -> refs !! k = Some phys ->
  spaced (buffer phys) /\
  forall newest,
    last (buffer phys) = Some newest ->
    out_t newest = phys_t phys /\ out_y newest = stateOf (phys_y phys).
Proof.
  intros Hreach Hk. split.
  - exact (proj1 (proj1 (map_Forall_lookup _ _)
                    (reachable_bufferInv refs Hreach) _ _ Hk)).
  - exact (proj1 (map_Forall_lookup _ _) (reachable_newest refs Hreach)
             _ _ Hk).
Qed.

Lemma buffer_newest_is_current_witness :
  (reachableRefs longRunRefs /\ longRunRefs !! "1" = Some longRunPhys) /\
  Z.of_nat (length (buffer longRunPhys)) = 10501%Z /\
  spaced (buffer longRunPhys) /\
  exists newest,
    last (buffer longRunPhys) = Some newest /\
    out_t newest = INITIAL_TIME + 21004 /\
    out_y newest = stateOf (phys_y longRunPhys).
Proof.
  split; [split; [exact longRunRefs_reachable|exact longRunRefs_lookup]|].
  split; [exact longRunPhys_length|].
  destruct (buffer_newest_is_current longRunRefs "1" longRunPhys
              longRunRefs_reachable longRunRefs_lookup) as [Hs Hn].
  split; [exact Hs|].
  destruct (last (buffer longRunPhys)) as [newest|] eqn:El.
  - exists newest. destruct (Hn newest eq_refl) as [Ht Hy].
    split; [reflexivity|]. split; [|exact Hy].
    rewrite Ht. exact longRunPhys_time.
  - exfalso. apply last_None in El.
    pose proof longRunPhys_length as Hlen. rewrite El in Hlen.
    discriminate Hlen.
Defined.

End BufferExtras.

(** ** The instance and panel handlers *)

Section HandlerExtras.
Import App Handlers.

(** X23.  Removing an instance and running the instance manager's effect
    on the remaining instances deletes the physics state of the removed id
    and leaves the state of every remaining instance as it was. *)
Theorem removeInstance_drops_state (rid : string)
  (instances : list SimInstance) (activeInstanceId : string)
  (refs : gmap string PhysicsRefState) :
  let instances' := (removeInstance rid instances activeInstanceId).1 in
  initPhysicsRefs instances' refs !! rid = None /\
  forall inst p,
    inst ∈ instances -> id inst <> rid -> refs !! id inst = Some p ->
    initPhysicsRefs instances' refs !! id inst = Some p.
Proof.
  intros instances'. unfold instances', removeInstance. cbn [fst]. split.
  - destruct (initPhysicsRefs _ refs !! rid) as [p|] eqn:E; [|reflexivity].
    exfalso.
    assert (Hin : rid ∈ (id <$> filter (fun i => id i <> rid) instances)).
    { apply (initPhysicsRefs_is_Some _ refs rid). exists p. exact E. }
    apply list_elem_of_fmap in Hin. destruct Hin as (i & Hi & Hf).
    apply list_elem_of_filter in Hf. destruct Hf as [Hne _]. congruence.
  - intros inst p Hin Hne Hk. apply initPhysicsRefs_keeps; [exact Hk|].
    apply list_elem_of_fmap. exists inst. split; [reflexivity|].
    apply list_elem_of_filter. split; assumption.
Qed.

(** X24.  [removeInstance] keeps the active id unless the removed instance
    is the active one; then the active id becomes the id of the first
    instance of the list before the removal, wherever the removed instance
    is in that list (and the empty string when the list is empty).  So when
    the active instance is the first of the list and is removed, the active
    id stays its id, which no instance of the new list has. *)
Theorem removeInstance_active (rid : string)
  (instances : list SimInstance) (activeInstanceId : string) :
  (activeInstanceId <> rid ->
   (removeInstance rid instances activeInstanceId).2 = activeInstanceId) /\
  (activeInstanceId = rid ->
   (forall first rest,
       instances = first :: rest ->
       (removeInstance rid instances activeInstanceId).2 = id first) /\
   (instances = [] ->
    (removeInstance rid instances activeInstanceId).2 = EmptyString)) /\
  (forall first rest,
      instances = first :: rest -> id first = rid -> activeInstanceId = rid ->
      (removeInstance rid instances activeInstanceId).2 = rid /\
      rid ∉ (id <$> (removeInstance rid instances activeInstanceId).1)).
Proof.
  unfold removeInstance. cbn [fst snd]. split; [|split].
  - intros Hne. destruct (decide (activeInstanceId = rid)); [contradiction|].
    reflexivity.
  - intros ->. destruct (decide (rid = rid)); [|contradiction]. split.
    + intros first rest ->. reflexivity.
    + intros ->. reflexivity.
  - intros first rest -> Hid ->. split.
    + destruct (decide (rid = rid)); [|contradiction]. cbn. exact Hid.
    + intros Hin. apply list_elem_of_fmap in Hin.
      destruct Hin as (i & Hi & Hf).
      apply list_elem_of_filter in Hf. destruct Hf as [Hne _]. congruence.
Qed.

Lemma removeInstance_active_witness :
  let instances := [heartA; heartB] in
  (removeInstance "2" instances "1").2 = "1" /\
  (removeInstance "2" instances "2").2 = "1" /\
  (removeInstance "1" instances "1").2 = "1" /\
  "1" ∉ (id <$> (removeInstance "1" instances "1").1).
Proof.
  intros instances.
  destruct (removeInstance_active "2" instances "1") as (H1 & _ & _).
  destruct (removeInstance_active "2" instances "2") as (_ & H2 & _).
  destruct (removeInstance_active "1" instances "1") as (_ & _ & H3).
  split; [apply H1; discriminate|].
  split; [exact (proj1 (H2 eq_refl) heartA [heartB] eq_refl)|].
  exact (H3 heartA [heartB] eq_refl eq_refl eq_refl).
Defined.

(** X25.  After [toggleSettings] only panels with the toggled id can have
    their settings open; the panels keep their ids and order; and with
    distinct panel ids at most one panel has its settings open. *)
Theorem toggleSettings_one_open (pid : string) (panels : list PanelDef) :
  (forall p, p ∈ toggleSettings pid panels ->
             isSettingsOpen p = Some true -> panel_id p = pid) /\
  panel_id <$> toggleSettings pid panels = panel_id <$> panels /\
  (NoDup (panel_id <$> panels) ->
   forall i j p q,
     toggleSettings pid panels !! i = Some p ->
     toggleSettings pid panels !! j = Some q ->
     isSettingsOpen p = Some true -> isSettingsOpen q = Some true ->
     i = j).
Proof.
  assert (Hopen : forall p, p ∈ toggleSettings pid panels ->
                            isSettingsOpen p = Some true -> panel_id p = pid).
  { intros p Hp Ho. unfold toggleSettings in Hp.
    apply list_elem_of_fmap in Hp. destruct Hp as (p0 & -> & _).
    destruct (decide (panel_id p0 = pid)) as [E|E]; [exact E|].
    cbn in Ho. discriminate Ho. }
  assert (Hids : panel_id <$> toggleSettings pid panels = panel_id <$> panels).
  { unfold toggleSettings. rewrite <- list_fmap_compose.
    apply list_fmap_ext. intros i p _. cbn.
    destruct (decide (panel_id p = pid)); reflexivity. }
  split; [exact Hopen|]. split; [exact Hids|].
  intros Hnd i j p q Hi Hj Hp Hq.
  rewrite <- Hids in Hnd.
  apply (NoDup_lookup _ i j pid Hnd); rewrite list_lookup_fmap.
  - rewrite Hi. cbn. f_equal. apply Hopen; [|exact Hp].
    apply (list_elem_of_lookup_2 _ i). exact Hi.
  - rewrite Hj. cbn. f_equal. apply Hopen; [|exact Hq].
    apply (list_elem_of_lookup_2 _ j). exact Hj.
Qed.

Lemma round_clamp (lo hi x : R) :
  lo <= hi -> lo <= Js.max lo (Js.min hi x) <= hi.
Proof.
  intros H. unfold Js.max, Js.min, Rmax, Rmin.
  destruct (Rle_dec hi x);
    repeat match goal with
           | |- context [Rle_dec ?a ?b] => destruct (Rle_dec a b)
           end; lra.
Qed.

(** X26.  After [onResizeMove] every panel with the id being resized has a
    width in [[2, 12]] and a height in [[4, 20]], wherever the mouse is; the
    other panels are unchanged, and the panels keep their ids and order. *)
Theorem onResizeMove_bounds (rs : ResizeState) (clientX clientY : R)
  (panels : list PanelDef) :
  let panels' := onResizeMove (Some rs) clientX clientY panels in
  (forall p, p ∈ panels' -> panel_id p = panelId rs ->
             2 <= panel_w p <= 12 /\ 4 <= panel_h p <= 20) /\
  (forall p, p ∈ panels' -> panel_id p <> panelId rs -> p ∈ panels) /\
  panel_id <$> panels' = panel_id <$> panels.
Proof.
  intros panels'. unfold panels', onResizeMove. cbv zeta.
  split; [|split].
  - intros p Hp Hid. apply list_elem_of_fmap in Hp.
    destruct Hp as (p0 & -> & _).
    destruct (decide (panel_id p0 = panelId rs)) as [E|E];
      [|contradiction].
    cbn [panel_w panel_h]. split; apply round_clamp; lra.
  - intros p Hp Hid. apply list_elem_of_fmap in Hp.
    destruct Hp as (p0 & -> & Hin).
    destruct (decide (panel_id p0 = panelId rs)) as [E|E]; [|exact Hin].
    cbn in Hid. contradiction.
  - rewrite <- list_fmap_compose. apply list_fmap_ext. intros i p _. cbn.
    destruct (decide (panel_id p = panelId rs)); reflexivity.
Qed.

(** X27.  [onDragEnd] with a source index in range gives a permutation of
    the panels, and (for a target index in range) the dragged panel is at
    the target index afterwards. *)
Theorem onDragEnd_moves (src dst : nat) (panels : list PanelDef) :
  (src < length panels)%nat ->
  exists next,
    onDragEnd (Some src) (Some dst) panels = Some next /\
    next ≡ₚ panels /\
    ((dst < length panels)%nat -> next !! dst = panels !! src).
Proof.
  intros Hsrc. unfold onDragEnd.
  destruct (decide (src <> dst)) as [Hne|Heq].
  - destruct (lookup_lt_is_Some_2 panels src Hsrc) as [removed Hr].
    rewrite Hr. eexists. split; [reflexivity|]. split.
    + rewrite <- Permutation_middle, take_drop.
      symmetry. apply delete_Permutation. exact Hr.
    + intros Hdst.
      assert (Hlen : length (delete src panels) = (length panels - 1)%nat).
      { rewrite length_delete; [reflexivity|]. rewrite Hr. eexists; reflexivity. }
      apply list_lookup_middle. rewrite length_take, Hlen. lia.
  - assert (E : src = dst) by (destruct (decide (src = dst)); [assumption|contradiction]).
    subst dst. exists panels. split; [reflexivity|]. split; [reflexivity|].
    intros _. reflexivity.
Qed.

Lemma onDragEnd_moves_witness :
  (0 < length initialPanels)%nat /\
  exists next,
    onDragEnd (Some 0%nat) (Some 2%nat) initialPanels = Some next /\
    next ≡ₚ initialPanels /\
    ((2 < length initialPanels)%nat -> next !! 2%nat = initialPanels !! 0%nat).
Proof.
  assert (H : (0 < length initialPanels)%nat) by (cbn; lia).
  split; [exact H|].
  exact (onDragEnd_moves 0 2 initialPanels H).
Defined.

End HandlerExtras.

(** ** The Starling curve *)

Section StarlingExtras.
Import Charts.

Lemma max0_nonneg (x : R) : 0 <= Js.max 0 x.
Proof. unfold Js.max. apply Rmax_l. Qed.

(** X28.  For [HR >= 0] (and [alpha], [beta], [Ees + Ea] positive)
    [getStarlingCO] is never negative; it is 0 for a negative filling
    pressure and 0 at [P_ed = 0]. *)
Theorem getStarlingCO_nonneg (P_ed Ees V0 alpha beta Ea HR : R) :
  0 <= HR -> 0 < alpha -> 0 < beta -> 0 < Ees + Ea ->
  0 <= getStarlingCO P_ed Ees V0 alpha beta Ea HR /\
  (P_ed < 0 -> getStarlingCO P_ed Ees V0 alpha beta Ea HR = 0) /\
  (P_ed = 0 -> getStarlingCO P_ed Ees V0 alpha beta Ea HR = 0).
Proof.
  intros HHR _ Hbeta _. unfold getStarlingCO. split; [|split].
  - destruct (Js.ltb P_ed 0); [lra|]. cbv zeta.
    pose proof (max0_nonneg (Ees / (Ees + Ea) * (1.0 / alpha)
                             * ln ((P_ed + beta) / beta))) as Hm.
    apply div_nonneg; [|lra]. apply Rmult_le_pos; assumption.
  - intros H. rewrite ltb_true by exact H. reflexivity.
  - intros ->. rewrite ltb_false by lra. cbv zeta.
    replace ((0 + beta) / beta) with 1 by (field; lra).
    rewrite ln_1, Rmult_0_r. unfold Js.max. rewrite Rmax_left by lra.
    unfold Rdiv. ring.
Qed.

Lemma getStarlingCO_nonneg_witness :
  (0 <= 60 /\ 0 < 0.029 /\ 0 < 0.34 /\ 0 < 2.21 + 1) /\
  0 <= getStarlingCO 5 2.21 5 0.029 0.34 1 60.
Proof.
  split; [lra|].
  apply (getStarlingCO_nonneg 5 2.21 5 0.029 0.34 1 60); lra.
Defined.

(** X29.  For [Ees > 0], [Ea >= 0], [alpha > 0], [beta > 0] and [HR >= 0]
    the Starling curve does not decrease with the filling pressure. *)
Theorem getStarlingCO_monotone (P1 P2 Ees V0 alpha beta Ea HR : R) :
  0 < Ees -> 0 <= Ea -> 0 < alpha -> 0 < beta -> 0 <= HR ->
  P1 <= P2 ->
  getStarlingCO P1 Ees V0 alpha beta Ea HR
  <= getStarlingCO P2 Ees V0 alpha beta Ea HR.
Proof.
  intros HE HEa Ha Hb HHR HP.
  destruct (Rlt_dec P1 0) as [Hneg|Hpos].
  { unfold getStarlingCO at 1. rewrite ltb_true by exact Hneg.
    unfold getStarlingCO. destruct (Js.ltb P2 0); [lra|]. cbv zeta.
    apply div_nonneg; [|lra]. apply Rmult_le_pos; [apply max0_nonneg|lra]. }
  unfold getStarlingCO. rewrite !ltb_false by lra. cbv zeta.
  set (c := Ees / (Ees + Ea) * (1.0 / alpha)).
  assert (Hc : 0 < c).
  { unfold c. apply Rmult_lt_0_compat.
    - apply Rmult_lt_0_compat; [lra|]. apply Rinv_0_lt_compat. lra.
    - apply Rmult_lt_0_compat; [lra|]. apply Rinv_0_lt_compat. lra. }
  assert (Hib : 0 < / beta) by (apply Rinv_0_lt_compat; lra).
  assert (Hx1 : 0 < (P1 + beta) / beta) by (unfold Rdiv; nra).
  assert (Hx12 : (P1 + beta) / beta <= (P2 + beta) / beta)
    by (unfold Rdiv; nra).
  assert (Hln : ln ((P1 + beta) / beta) <= ln ((P2 + beta) / beta)).
  { destruct Hx12 as [Hlt|Heq]; [|rewrite Heq; lra].
    left. apply ln_increasing; assumption. }
  assert (Hterm : c * ln ((P1 + beta) / beta) <= c * ln ((P2 + beta) / beta))
    by (apply Rmult_le_compat_l; lra).
  assert (Hmax : Js.max 0 (c * ln ((P1 + beta) / beta))
                 <= Js.max 0 (c * ln ((P2 + beta) / beta))).
  { unfold Js.max. apply Rle_max_compat_l. exact Hterm. }
  unfold Rdiv. apply Rmult_le_compat_r; [lra|].
  apply Rmult_le_compat_r; assumption.
Qed.

Lemma getStarlingCO_monotone_witness :
  (0 < 2.21 /\ 0 <= 1 /\ 0 < 0.029 /\ 0 < 0.34 /\ 0 <= 60 /\ 5 <= 10) /\
  getStarlingCO 5 2.21 5 0.029 0.34 1 60
  <= getStarlingCO 10 2.21 5 0.029 0.34 1 60.
Proof.
  split; [lra|].
  apply (getStarlingCO_monotone 5 10 2.21 5 0.029 0.34 1 60); lra.
Defined.

End StarlingExtras.

(** ** The instance manager's effect on the panels *)

Section InitEffectExtras.
Import App Handlers.

Lemma addInstanceConfig_has (inst : SimInstance) (p : PanelDef) :
  is_Some (config (addInstanceConfig inst p) !! id inst).
Proof.
  unfold addInstanceConfig. destruct (config p !! id inst) as [c|] eqn:E.
  - rewrite E. eexists; reflexivity.
  - cbn [config]. rewrite lookup_insert_eq. eexists; reflexivity.
Qed.

Lemma addInstanceConfig_keeps (inst : SimInstance) (p : PanelDef) (k : string) :
  is_Some (config p !! k) -> is_Some (config (addInstanceConfig inst p) !! k).
Proof.
  intros H. unfold addInstanceConfig.
  destruct (config p !! id inst) as [c|] eqn:E; [exact H|].
  cbn [config]. destruct (decide (k = id inst)) as [->|Hne].
  - rewrite lookup_insert_eq. eexists; reflexivity.
  - rewrite lookup_insert_ne by congruence. exact H.
Qed.

Lemma addInstanceConfig_id (inst : SimInstance) (p : PanelDef) :
  panel_id (addInstanceConfig inst p) = panel_id p.
Proof.
  unfold addInstanceConfig. destruct (config p !! id inst); reflexivity.
Qed.

(** The creation pass of the effect, on both components. *)
Lemma initEffect_fold (instances : list SimInstance)
  (refs : gmap string PhysicsRefState) (panels : list PanelDef) :
  let st :=
    fold_left
      (fun (st : gmap string PhysicsRefState * list PanelDef) inst =>
         match st.1 !! inst.(id) with
         | Some _ => st
         | None =>
             (<[inst.(id) := freshPhys (syncTime st.1) inst]> st.1,
              map (addInstanceConfig inst) st.2)
         end)
      instances (refs, panels) in
  st.1 = createMissing instances refs /\
  (configsCover refs panels -> configsCover st.1 st.2) /\
  panel_id <$> st.2 = panel_id <$> panels.
Proof.
  revert refs panels.
  induction instances as [|inst insts IH]; intros refs panels.
  { cbn. repeat split. auto. }
  cbn [fold_left]. unfold createMissing. cbn [fold_left].
  fold (createMissing insts). cbn [fst snd].
  destruct (refs !! id inst) as [q|] eqn:E.
  - apply IH.
  - specialize (IH (<[id inst := freshPhys (syncTime refs) inst]> refs)
                  (map (addInstanceConfig inst) panels)).
    cbv zeta in IH. destruct IH as (H1 & H2 & H3).
    split; [exact H1|]. split.
    + intros Hc. apply H2. intros p k Hp Hk.
      apply list_elem_of_fmap in Hp. destruct Hp as (p0 & -> & Hp0).
      destruct (decide (k = id inst)) as [->|Hne].
      * apply addInstanceConfig_has.
      * rewrite lookup_insert_ne in Hk by congruence.
        apply addInstanceConfig_keeps. apply (Hc p0 k Hp0 Hk).
    + rewrite H3. rewrite <- list_fmap_compose.
      apply list_fmap_ext. intros i p _. cbn. apply addInstanceConfig_id.
Qed.

(** X30.  The instance manager's effect changes the physics map as
    [initPhysicsRefs] does and keeps the panels' ids and order; and if
    every panel had a configuration for every instance that already had a
    physics state, then afterwards every panel has a configuration for
    every instance. *)
Theorem initEffect_configs (instances : list SimInstance)
  (refs : gmap string PhysicsRefState) (panels : list PanelDef) :
  (initEffect instances refs panels).1 = initPhysicsRefs instances refs /\
  panel_id <$> (initEffect instances refs panels).2 = panel_id <$> panels /\
  (configsCover refs panels ->
   forall p inst,
     p ∈ (initEffect instances refs panels).2 -> inst ∈ instances ->
     is_Some (config p !! id inst)).
Proof.
  pose proof (initEffect_fold instances refs panels) as H. cbv zeta in H.
  destruct H as (H1 & H2 & H3).
  unfold initEffect. cbv zeta. cbn [fst snd].
  change (fun (st : gmap string PhysicsRefState * list PanelDef)
              (inst : SimInstance) =>
            match st.1 !! id inst with
            | Some _ => st
            | None =>
                (<[id inst := {| phys_t := syncTime st.1;
                                 phys_y := INITIAL_STATE_VECTOR;
                                 buffer := []; lastRenderX := 0;
                                 activeParams := params inst |}]> st.1,
                 map (addInstanceConfig inst) st.2)
            end)
    with (fun (st : gmap string PhysicsRefState * list PanelDef)
              (inst : SimInstance) =>
            match st.1 !! id inst with
            | Some _ => st
            | None =>
                (<[id inst := freshPhys (syncTime st.1) inst]> st.1,
                 map (addInstanceConfig inst) st.2)
            end).
  split; [rewrite H1; reflexivity|]. split; [exact H3|].
  intros Hc p inst Hp Hin. apply (H2 Hc p (id inst) Hp).
  rewrite H1. apply createMissing_covers. exact Hin.
Qed.

End InitEffectExtras.
